(** * Exchange-NodeJS/utilities: the buffered logger and its caller resolver

    A shallow embedding of [src/modules/helpers/SourceClass.ts] and
    [src/modules/classes/Logger.ts], and the properties the specification
    states about them.

    Conventions.
    - JavaScript strings are [string]s; the text handled here (stack traces,
      severities, colour escapes) is ASCII.
    - A thrown exception is a result [Throw e]; the state reached at the
      moment of the throw is kept, so what a failing call did before it
      failed stays observable.
    - Everything the code writes to a stream is appended to one trace of
      events, in program order. *)

From stdpp Require Import base tactics list strings option numbers.
From Stdlib Require Import ZArith Ascii String DecimalString Lia Sorted.

Open Scope string_scope.

(** ** JavaScript string primitives used by the sources *)

Module Js.

Definition chr (n : nat) : ascii := ascii_of_nat n.

(** [s.startsWith(p)] *)
Definition startsWith (p s : string) : bool := String.prefix p s.

(** [s.includes(sub)] *)
Fixpoint includes (sub s : string) : bool :=
  String.prefix sub s
  || match s with
     | EmptyString => false
     | String _ s' => includes sub s'
     end.

(** [s.split(sep)] for a one-character separator: the pieces between the
    separators, empty pieces included; never the empty array. *)
Fixpoint split (sep : ascii) (s : string) : list string :=
  match s with
  | EmptyString => [EmptyString]
  | String c s' =>
      if Ascii.eqb c sep then EmptyString :: split sep s'
      else match split sep s' with
           | [] => [String c EmptyString]
           | piece :: pieces => String c piece :: pieces
           end
  end.

(** [pieces.join(sep)] *)
Definition join (sep : string) (pieces : list string) : string :=
  String.concat sep pieces.

(** White space of [String.prototype.trim] within ASCII: TAB, LF, VT, FF,
    CR and SPACE. *)
Definition isWhiteSpace (c : ascii) : bool :=
  let n := nat_of_ascii c in
  ((9 <=? n) && (n <=? 13))%nat || (n =? 32)%nat.

Fixpoint trimStart (s : string) : string :=
  match s with
  | EmptyString => EmptyString
  | String c s' => if isWhiteSpace c then trimStart s' else s
  end.

Fixpoint trimEnd (s : string) : string :=
  match s with
  | EmptyString => EmptyString
  | String c s' =>
      match trimEnd s' with
      | EmptyString => if isWhiteSpace c then EmptyString else String c EmptyString
      | t => String c t
      end
  end.

(** [s.trim()] *)
Definition trim (s : string) : string := trimEnd (trimStart s).

Definition upperChar (c : ascii) : ascii :=
  let n := nat_of_ascii c in
  if ((97 <=? n) && (n <=? 122))%nat then ascii_of_nat (n - 32) else c.

(** [s.toUpperCase()] on ASCII text *)
Fixpoint toUpperCase (s : string) : string :=
  match s with
  | EmptyString => EmptyString
  | String c s' => String (upperChar c) (toUpperCase s')
  end.

Definition isDigit (c : ascii) : bool :=
  let n := nat_of_ascii c in ((48 <=? n) && (n <=? 57))%nat.

(** The Number nearest to a non-negative integer [z], ties going to the
    even significand: the conversion the language writes 𝔽. A Number holds
    every integer below 2^53 exactly; above, it keeps the 53 leading bits.
    [2^1024] stands for [Infinity], which integers round to from
    [2^1024 - 2^970] on. *)
Definition toNumber (z : Z) : Z :=
  if (z <? 2 ^ 53)%Z then z
  else
    let e := (Z.log2 z - 52)%Z in
    let q := Z.shiftr z e in
    let r := Z.land z (Z.ones e) in
    let half := (2 ^ (e - 1))%Z in
    let q' := if (half <? r)%Z || ((r =? half)%Z && Z.odd q)
              then (q + 1)%Z else q in
    let v := Z.shiftl q' e in
    if (2 ^ 1024 <=? v)%Z then (2 ^ 1024)%Z else v.

(** The integer the leading decimal digits of [s] denote, after [acc]. *)
Fixpoint mathInt (acc : Z) (s : string) : Z :=
  match s with
  | EmptyString => acc
  | String c s' =>
      if isDigit c
      then mathInt (acc * 10 + Z.of_nat (nat_of_ascii c - 48))%Z s'
      else acc
  end.

(** [parseInt(digits, 10)] on a string the pattern [\d+] matched: the
    Number nearest to the integer the digits denote. *)
Definition parseInt (digits : string) : Z := toNumber (mathInt 0 digits).

(** Decimal text of an integer: [String(n)] for a BigInt, and the text of
    a collection size. *)
Definition decimal (n : Z) : string :=
  NilZero.string_of_int (Z.to_int n).

(** The line terminators [.] refuses (within ASCII): LF and CR. *)
Definition isLineTerminator (c : ascii) : bool :=
  let n := nat_of_ascii c in ((n =? 10) || (n =? 13))%nat.

End Js.

(** ** SourceClass.ts: the caller resolver *)

Module SourceClass.

(** IStackFrame. [line] is a Number that [parseInt] returned: the integer
    it is, with [2^1024] for [Infinity]. *)
Record IStackFrame := {
  identifier : string;
  path : string;
  line : Z;
}.

(** What [line.match(detectorRegex)] captures; the column, group 4, is
    never read. *)
Record RegExpMatch := {
  group1 : string;
  group2 : string;
  group3 : string;
}.

(** *** The pattern [/at (.+?) \((.+?):(\d+):(\d+)\)/]

    A backtracking matcher for this one pattern. The lazy groups try the
    shortest text first and grow one character at a time; every candidate
    is tried in the order the regular-expression engine tries it. *)

(** [\d*], greedy: the longest run of digits and what follows it. *)
Fixpoint takeDigits (s : string) : string * string :=
  match s with
  | EmptyString => (EmptyString, EmptyString)
  | String c s' =>
      if Js.isDigit c
      then let '(ds, rest) := takeDigits s' in (String c ds, rest)
      else (EmptyString, s)
  end.

(** [\d+]. What must follow in the pattern is [:] or [)], never a digit,
    so giving back digits cannot turn a failure into a match: the longest
    run is the only candidate. *)
Definition digits1 (s : string) : option (string * string) :=
  match takeDigits s with
  | (EmptyString, _) => None
  | (ds, rest) => Some (ds, rest)
  end.

(** [:(\d+):(\d+)\)] at the front of [s]; the line digits. *)
Definition matchPosition (s : string) : option string :=
  match s with
  | String ":" s1 =>
      match digits1 s1 with
      | Some (ln, String ":" s2) =>
          match digits1 s2 with
          | Some (_, String ")" _) => Some ln
          | _ => None
          end
      | _ => None
      end
  | _ => None
  end.

(** [(.+?)] followed by the rest of the pattern [k]. *)
Fixpoint lazyGroup {R : Type} (k : string → option R) (s : string)
  : option (string * R) :=
  match s with
  | EmptyString => None
  | String c s' =>
      if Js.isLineTerminator c then None
      else match k s' with
           | Some r => Some (String c EmptyString, r)
           | None =>
               match lazyGroup k s' with
               | Some (g, r) => Some (String c g, r)
               | None => None
               end
           end
  end.

(** [ \((.+?):(\d+):(\d+)\)] at the front of [s]. *)
Definition matchLocation (s : string) : option (string * string) :=
  match s with
  | String " " (String "(" s') => lazyGroup matchPosition s'
  | _ => None
  end.

(** The whole pattern anchored at the front of [s]. *)
Definition matchHere (s : string) : option RegExpMatch :=
  match s with
  | String "a" (String "t" (String " " s')) =>
      match lazyGroup matchLocation s' with
      | Some (g1, (g2, g3)) =>
          Some {| group1 := g1; group2 := g2; group3 := g3 |}
      | None => None
      end
  | _ => None
  end.

(** [line.match(detectorRegex)]: the leftmost match. *)
Fixpoint detectorRegex (s : string) : option RegExpMatch :=
  match matchHere s with
  | Some m => Some m
  | None =>
      match s with
      | EmptyString => None
      | String _ s' => detectorRegex s'
      end
  end.

(** *** [Array.prototype.sort] with the comparator of the source

    The sort is stable; it is modelled as the insertion sort that puts an
    element in front of the first one it does not compare greater than.
    The comparator subtracts two Numbers: the difference is rounded, and
    keeps the sign of the exact one; [Infinity - Infinity] is [NaN], which
    the sort takes for [+0], the sign of [2^1024 - 2^1024]. *)
Definition compareLines (a b : IStackFrame) : Z := (line a - line b)%Z.

Fixpoint insertSorted (x : IStackFrame) (l : list IStackFrame)
  : list IStackFrame :=
  match l with
  | [] => [x]
  | y :: l' =>
      if (compareLines x y <=? 0)%Z then x :: y :: l'
      else y :: insertSorted x l'
  end.

Fixpoint sort (l : list IStackFrame) : list IStackFrame :=
  match l with
  | [] => []
  | x :: l' => insertSorted x (sort l')
  end.

(** *** getCallerClass, step by step *)

(** [path.resolve(process.cwd())]: the working directory is absolute and
    normalised already, and resolving such a path returns it. *)
Definition path_resolve (dir : string) : string := dir.

(** [stack]: [inobj.stack.split("\n")], trimmed, filtered and matched,
    before the [shift] and the [reverse]. *)
Definition stack (stackText : string) : list RegExpMatch :=
  omap detectorRegex
    (List.filter (Js.startsWith "at")
       (List.map Js.trim (Js.split (Js.chr 10) stackText))).

(** [stack.shift(); stack.reverse(); stack.map(...)] *)
Definition detections (stackText : string) : list IStackFrame :=
  List.map
    (λ m, {| identifier := group1 m;
             path := group2 m;
             line := Js.parseInt (group3 m) |})
    (rev (tail (stack stackText))).

Definition isLocal (filterDir : string) (frame : IStackFrame) : bool :=
  Js.startsWith (path_resolve filterDir) (path frame)
  && negb (Js.includes "node_modules" (path frame)).

Definition isNamed (frame : IStackFrame) : bool :=
  negb (Js.includes "<anonymous>" (identifier frame))
  && negb (Js.startsWith "Object." (identifier frame))
  && negb (Js.startsWith "Module." (identifier frame)).

Definition local (filterDir stackText : string) : list IStackFrame :=
  List.filter (isLocal filterDir) (detections stackText).

Definition named (filterDir stackText : string) : list IStackFrame :=
  List.filter isNamed (local filterDir stackText).

(** [identifier.split(".")[0].split(" ")], then the [shift] when more
    than one part is left, then [separated[0]]. *)
Definition className (ident : string) : string :=
  let separated := Js.split " " (hd EmptyString (Js.split "." ident)) in
  let separated :=
    if (1 <? List.length separated)%nat then tail separated else separated in
  hd EmptyString separated.

(** [getCallerClass()], given the working directory of the process and the
    text [Error.captureStackTrace] stored in [inobj.stack]. *)
Definition getCallerClass (filterDir stackText : string) : string :=
  match sort (named filterDir stackText) with
  | [] => "Unknown"
  | sortedAndSelected :: _ => className (identifier sortedAndSelected)
  end.

End SourceClass.

(** ** Values, and the built-ins the formatter calls *)

Module Value.

(** Exceptions. [Error] is what the source throws itself; the other two
    are raised by the engine. *)
Inductive exn :=
| Error (message : string)
| TypeError
| RangeError.

Inductive result (A : Type) :=
| Ok (a : A)
| Throw (e : exn).
Arguments Ok {A} a.
Arguments Throw {A} e.

#[global] Instance result_ret : MRet result := λ A a, Ok a.
#[global] Instance result_bind : MBind result := λ A B f r,
  match r with
  | Ok a => f a
  | Throw e => Throw e
  end.

(** A value of type [any] that is data: a primitive, or a reference to an
    object of the heap, which is a plain object or an array with data
    properties, a Map or a Set. Objects are mutable and may refer to
    themselves, so cyclic structures are heaps whose references form a
    cycle. Left out are floating-point numbers and symbols, and everything
    that runs code of its own when it is formatted: functions, accessors and
    [toJSON] methods, proxies, and objects that inherit from
    [Map.prototype] or [Set.prototype] without being collections. What is
    proved of [formatValue] is proved of the values of this type. *)
Definition addr := nat.

Inductive value :=
| VUndefined
| VNull
| VBool (b : bool)
| VString (s : string)
| VBigInt (n : Z)
| VObject (a : addr).

Inductive object :=
| Plain (props : list (string * value))
| Arr (elems : list value)
| MapObj (entries : list (value * value))
| SetObj (values : list value).

Definition heap := addr → object.

(** [String(v)] on a primitive. *)
Definition toString (v : value) : string :=
  match v with
  | VUndefined => "undefined"
  | VNull => "null"
  | VBool true => "true"
  | VBool false => "false"
  | VString s => s
  | VBigInt n => Js.decimal n
  | VObject _ => "[object Object]"
  end.

(** *** JSON.stringify *)

Definition hexDigit (n : nat) : ascii :=
  if (n <? 10)%nat then ascii_of_nat (48 + n) else ascii_of_nat (87 + n).

Definition dquote : string := String (Js.chr 34) EmptyString.
Definition backslash : string := String (Js.chr 92) EmptyString.

Definition quoteChar (c : ascii) : string :=
  let n := nat_of_ascii c in
  if (n =? 34)%nat then backslash ++ dquote
  else if (n =? 92)%nat then backslash ++ backslash
  else if (n =? 8)%nat then backslash ++ "b"
  else if (n =? 9)%nat then backslash ++ "t"
  else if (n =? 10)%nat then backslash ++ "n"
  else if (n =? 12)%nat then backslash ++ "f"
  else if (n =? 13)%nat then backslash ++ "r"
  else if (n <? 32)%nat
       then backslash ++ "u00"
            ++ String (hexDigit (n / 16)) (String (hexDigit (n mod 16)) EmptyString)
  else String c EmptyString.

(** QuoteJSONString *)
Definition quote (s : string) : string :=
  dquote
  ++ (fix go (s : string) : string :=
        match s with
        | EmptyString => EmptyString
        | String c s' => quoteChar c ++ go s'
        end) s
  ++ dquote.

(** SerializeJSONProperty. [ancestors] is the stack of objects being
    serialised; meeting one of them again is the cycle the built-in
    refuses. [depth] bounds the nesting the call stack allows. A Map or a
    Set has no enumerable property of its own and prints as an empty
    object. The result [None] is [undefined]. *)
Fixpoint serialize (depth : nat) (h : heap) (ancestors : list addr)
    (v : value) : result (option string) :=
  match v with
  | VUndefined => Ok None
  | VNull => Ok (Some "null")
  | VBool true => Ok (Some "true")
  | VBool false => Ok (Some "false")
  | VString s => Ok (Some (quote s))
  | VBigInt _ => Throw TypeError
  | VObject a =>
      match depth with
      | O => Throw RangeError
      | S depth' =>
          if bool_decide (a ∈ ancestors) then Throw TypeError
          else
            match h a with
            | Arr elems =>
                parts ← mapM (serialize depth' h (a :: ancestors)) elems;
                Ok (Some ("[" ++ Js.join "," (List.map (default "null") parts) ++ "]"))
            | Plain props =>
                parts ← mapM (λ kv,
                           o ← serialize depth' h (a :: ancestors) kv.2;
                           Ok (option_map (λ t, quote kv.1 ++ ":" ++ t) o))
                         props;
                Ok (Some ("{" ++ Js.join "," (omap id parts) ++ "}"))
            | MapObj _ | SetObj _ => Ok (Some "{}")
            end
      end
  end.

(** [JSON.stringify(value)] *)
Definition JSON_stringify (depth : nat) (h : heap) (v : value)
  : result (option string) :=
  serialize depth h [] v.

End Value.

Export Value.

(** ** Logger.ts *)

Module Logger.

(** *** Streams and the trace of what is done to them *)

(** [process.stdout], a [Writable] handed to the constructor, or a stream
    [fs.createWriteStream] opened on a path. Streams are compared by
    identity. *)
Inductive stream :=
| Stdout
| UserStream (id : nat)
| FileStream (file : string).

#[global] Instance stream_eq_dec : EqDecision stream.
Proof. solve_decision. Defined.

Inductive event :=
| MkdirSync (dir : string)
| CreateWriteStream (file : string)
| Write (s : stream) (chunk : string)
| End (s : stream).

(** The chunks written to stream [s], oldest first. *)
Definition written (s : stream) (t : list event) : list string :=
  omap (λ e, match e with
             | Write s' chunk => if bool_decide (s' = s) then Some chunk else None
             | _ => None
             end) t.

(** *** Numbers and arrays as [index] and [buffer] use them *)

(** The value of [index]: an integer, or [NaN] once a remainder by zero
    has been taken. *)
Inductive number :=
| Int (z : Z)
| NaN.

(** [(n + 1) % m], the remainder taking the sign of the dividend. *)
Definition succMod (n : number) (m : Z) : number :=
  match n with
  | Int z => if (m =? 0)%Z then NaN else Int (Z.rem (z + 1) m)
  | NaN => NaN
  end.

(** [n === 0] and [n > 0] *)
Definition isZero (n : number) : bool :=
  match n with Int z => (z =? 0)%Z | NaN => false end.
Definition isPositive (n : number) : bool :=
  match n with Int z => (0 <? z)%Z | NaN => false end.

(** The buffer array: its indexed slots ([None] is [null], or a hole) and
    the properties assigned under keys that are not array indices. *)
Record JsArray := {
  slots : list (option string);
  others : list (string * string);
}.

(** [new Array(n).fill(null)] *)
Definition newArray (n : Z) : result JsArray :=
  if ((0 <=? n) && (n <? 2 ^ 32))%Z
  then Ok {| slots := replicate (Z.to_nat n) None; others := [] |}
  else Throw RangeError.

(** [a[i] = s]: inside the array the slot is replaced; at an array index
    past its end the array grows, with holes up to [i]; and a key that is
    no array index (a negative number, one from 2^32 - 1 on, [NaN]) names an
    ordinary property. *)
Definition setAt (i : number) (s : string) (a : JsArray) : JsArray :=
  match i with
  | Int z =>
      let k := Z.to_nat z in
      if (0 <=? z)%Z && (k <? List.length (slots a))%nat
      then {| slots := <[k := Some s]> (slots a); others := others a |}
      else if ((0 <=? z) && (z <? 2 ^ 32 - 1))%Z
      then {| slots := slots a ++ replicate (k - List.length (slots a)) None ++ [Some s];
              others := others a |}
      else {| slots := slots a; others := (Js.decimal z, s) :: others a |}
  | NaN => {| slots := slots a; others := ("NaN", s) :: others a |}
  end.

(** *** Objects used as dictionaries

    [Logger.colors] and [fileStreams] are object literals, so a key they
    do not own is looked up in [Object.prototype]. *)
Inductive property (A : Type) :=
| Own (a : A)
| Inherited
| Absent.
Arguments Own {A} a.
Arguments Inherited {A}.
Arguments Absent {A}.

Definition objectPrototypeKeys : list string :=
  [ "constructor"; "__defineGetter__"; "__defineSetter__"; "hasOwnProperty";
    "__lookupGetter__"; "__lookupSetter__"; "isPrototypeOf";
    "propertyIsEnumerable"; "toString"; "valueOf"; "__proto__";
    "toLocaleString" ].

Fixpoint assoc {A : Type} (key : string) (o : list (string * A)) : option A :=
  match o with
  | [] => None
  | (k, a) :: o' => if String.eqb k key then Some a else assoc key o'
  end.

(** [o[key]] *)
Definition getProperty {A : Type} (o : list (string * A)) (key : string)
  : property A :=
  match assoc key o with
  | Some a => Own a
  | None =>
      if bool_decide (key ∈ objectPrototypeKeys) then Inherited else Absent
  end.

(** The text a template literal gives an inherited member: the native
    functions print their name, [__proto__] is [Object.prototype]. *)
Definition inheritedText (key : string) : string :=
  if String.eqb key "__proto__" then "[object Object]"
  else "function "
       ++ (if String.eqb key "constructor" then "Object" else key)
       ++ "() { [native code] }".

Definition esc (code : string) : string := String (Js.chr 27) code.

(** [Logger.colors] *)
Definition colors : list (string * string) :=
  [ ("error", esc "[31m");
    ("info", esc "[32m");
    ("warn", esc "[33m");
    ("debug", esc "[34m");
    ("reset", esc "[0m");
    ("mapKey", esc "[36m");
    ("mapValue", esc "[35m");
    ("setValue", esc "[33m");
    ("objectKey", esc "[90m");
    ("objectValue", esc "[92m") ].

Definition reset : string := esc "[0m".
Definition mapKey : string := esc "[36m".
Definition mapValue : string := esc "[35m".
Definition setValue : string := esc "[33m".

(** [Logger.colors[level] || Logger.colors.reset], as the template
    literal prints it. Every colour is a non-empty string, hence truthy. *)
Definition colorOf (level : string) : string :=
  match getProperty colors level with
  | Own c => c
  | Inherited => inheritedText level
  | Absent => reset
  end.

(** *** formatValue, formatMap, formatSet

    The three methods call each other; [formatMap] and [formatSet] take
    the formatter they recurse into. [depth] is the nesting the call stack
    still allows: running out of it is the engine's [RangeError]. *)

Definition formatMap (formatValue : value → result string)
    (entries : list (value * value)) : result string :=
  entries' ← mapM (λ kv,
                k ← formatValue kv.1;
                v ← formatValue kv.2;
                Ok (mapKey ++ k ++ reset ++ " => " ++ mapValue ++ v ++ reset))
              entries;
  Ok ("Map(" ++ Js.decimal (Z.of_nat (List.length entries)) ++ ") { "
      ++ Js.join ", " entries' ++ " }").

Definition formatSet (formatValue : value → result string)
    (values : list value) : result string :=
  values' ← mapM (λ v,
               t ← formatValue v;
               Ok (setValue ++ t ++ reset))
             values;
  Ok ("Set(" ++ Js.decimal (Z.of_nat (List.length values)) ++ ") { "
      ++ Js.join ", " values' ++ " }").

Fixpoint formatValue (depth : nat) (h : heap) (v : value) : result string :=
  match depth with
  | O => Throw RangeError
  | S depth' =>
      match v with
      | VObject a =>
          match h a with
          | MapObj entries => formatMap (formatValue depth' h) entries
          | SetObj values => formatSet (formatValue depth' h) values
          | Plain _ | Arr _ =>
              match JSON_stringify depth' h v with
              | Ok (Some text) => Ok text
              | Ok None => Ok "undefined"
              | Throw _ => Ok "[Circular]"
              end
          end
      | _ => Ok (toString v)
      end
  end.

(** *** The instance and the process around it *)

(** ILoggerOptions. A [bufferSize] that is no integer is refused by
    [new Array], like a negative one, so [Z] holds every size an instance
    is built with. *)
Record ILoggerOptions := {
  opt_bufferSize : option Z;
  opt_flushInterval : option Z;
  opt_writeStream : option stream;
  opt_highResTimestamps : option bool;
  opt_inmediate : option bool;
}.

Record Logger := {
  source : string;
  buffer : JsArray;
  bufferSize : Z;
  flushInterval : Z;
  isFlushing : bool;
  writeStream : stream;
  index : number;
  isClosed : bool;
  highResTimestamps : bool;
  inmediate : bool;
  fileStreams : list (string * stream);
}.

(** What the instance reads from its surroundings and cannot change: the
    objects its messages refer to, the depth of the call stack, the two
    clocks (their value at each reading, counted from the start of the
    process) and [process.env.NODE_ENV]. *)
Record Env := {
  objects : heap;
  stackDepth : nat;
  toISOString : nat → string;
  hrtime : nat → Z;
  NODE_ENV : option string;
}.

(** The mutable state: the instance, every stream event so far, the
    number of clock readings so far and whether the directory [logs]
    exists. *)
Record World := {
  this : Logger;
  trace : list event;
  clock : nat;
  logsDir : bool;
}.

(** *** The monad of methods: state, and exceptions that keep the state *)

Definition M (A : Type) : Type := World → result A * World.

Definition ret {A : Type} (a : A) : M A := λ w, (Ok a, w).
Definition bind {A B : Type} (m : M A) (f : A → M B) : M B := λ w,
  match m w with
  | (Ok a, w') => f a w'
  | (Throw e, w') => (Throw e, w')
  end.

Notation "'let*' x ':=' m 'in' k" := (bind m (λ x, k))
  (at level 10, x name, m at level 200, k at level 200).
Notation "m '>>' k" := (bind m (λ _, k))
  (at level 100, k at level 200, right associativity).

Definition throw {A : Type} (e : exn) : M A := λ w, (Throw e, w).
Definition gets {A : Type} (f : Logger → A) : M A := λ w, (Ok (f (this w)), w).
Definition update (f : Logger → Logger) : M unit :=
  λ w, (Ok tt, {| this := f (this w); trace := trace w;
                  clock := clock w; logsDir := logsDir w |}).
Definition emit (e : event) : M unit :=
  λ w, (Ok tt, {| this := this w; trace := trace w ++ [e];
                  clock := clock w; logsDir := logsDir w |}).
(** A pure computation that may throw. *)
Definition lift {A : Type} (r : result A) : M A := λ w, (r, w).
Definition when (b : bool) (m : M unit) : M unit := if b then m else ret tt.
(** [keys.forEach(f)] *)
Fixpoint forEach {A : Type} (f : A → M unit) (l : list A) : M unit :=
  match l with
  | [] => ret tt
  | a :: l' => f a >> forEach f l'
  end.

Definition set_buffer (a : JsArray) (l : Logger) : Logger :=
  {| source := source l; buffer := a; bufferSize := bufferSize l;
     flushInterval := flushInterval l; isFlushing := isFlushing l;
     writeStream := writeStream l; index := index l; isClosed := isClosed l;
     highResTimestamps := highResTimestamps l; inmediate := inmediate l;
     fileStreams := fileStreams l |}.
Definition set_index (n : number) (l : Logger) : Logger :=
  {| source := source l; buffer := buffer l; bufferSize := bufferSize l;
     flushInterval := flushInterval l; isFlushing := isFlushing l;
     writeStream := writeStream l; index := n; isClosed := isClosed l;
     highResTimestamps := highResTimestamps l; inmediate := inmediate l;
     fileStreams := fileStreams l |}.
Definition set_isFlushing (b : bool) (l : Logger) : Logger :=
  {| source := source l; buffer := buffer l; bufferSize := bufferSize l;
     flushInterval := flushInterval l; isFlushing := b;
     writeStream := writeStream l; index := index l; isClosed := isClosed l;
     highResTimestamps := highResTimestamps l; inmediate := inmediate l;
     fileStreams := fileStreams l |}.
Definition set_isClosed (b : bool) (l : Logger) : Logger :=
  {| source := source l; buffer := buffer l; bufferSize := bufferSize l;
     flushInterval := flushInterval l; isFlushing := isFlushing l;
     writeStream := writeStream l; index := index l; isClosed := b;
     highResTimestamps := highResTimestamps l; inmediate := inmediate l;
     fileStreams := fileStreams l |}.

(** [stream.write(chunk)] on the value [o[key]] found in a dictionary of
    streams. An inherited member has no [write], and a missing one is
    [undefined]: the call is a [TypeError] in both cases. *)
Definition writeTo (p : property stream) (chunk : string) : M unit :=
  match p with
  | Own s => emit (Write s chunk)
  | Inherited | Absent => throw TypeError
  end.

Definition newline : string := String (Js.chr 10) EmptyString.

Section Methods.

Variable env : Env.

(** The timestamp of a message; reading either clock advances the count
    of readings. *)
Definition timestamp : M string := λ w,
  (Ok (if highResTimestamps (this w)
       then Js.decimal (hrtime env (clock w))
       else toISOString env (clock w)),
   {| this := this w; trace := trace w;
      clock := S (clock w); logsDir := logsDir w |}).

(** formatMessage *)
Definition formatMessage (level : string) (message : value)
    (isConsole : bool) : M string :=
  let* timestamp := timestamp in
  let color := colorOf level in
  let* formattedMessage := lift (formatValue (stackDepth env) (objects env) message) in
  let* source := gets source in
  if isConsole
  then ret ("[" ++ timestamp ++ "] " ++ color ++ "[" ++ Js.toUpperCase level
             ++ "] " ++ source ++ reset ++ ": " ++ formattedMessage)
  else ret ("[" ++ timestamp ++ "] [" ++ Js.toUpperCase level ++ "] "
             ++ source ++ ": " ++ formattedMessage).

(** The body of the loop of [flush]: slots [i], [i+1], ... for [count]
    rounds. A slot is taken when it is truthy: neither [null], nor a
    hole, nor the empty string. *)
Fixpoint scan (count i : nat) (slots : list (option string))
    (batch : list string) : list (option string) * list string :=
  match count with
  | O => (slots, batch)
  | S count' =>
      match slots !! i with
      | Some (Some entry) =>
          if String.eqb entry EmptyString
          then scan count' (S i) slots batch
          else scan count' (S i) (<[i := None]> slots) (batch ++ [entry])
      | _ => scan count' (S i) slots batch
      end
  end.

(** flush. The function is [async]: the caller gets a promise, and
    everything up to the final [await] has run when the call returns.
    Nothing follows that [await]. *)
Definition flush : M unit :=
  let* isFlushing := gets isFlushing in
  let* isClosed := gets isClosed in
  if isFlushing || isClosed then ret tt
  else
    update (set_isFlushing true) >>
    let* buffer := gets buffer in
    let* bufferSize := gets bufferSize in
    let '(slots', batch) := scan (Z.to_nat bufferSize) 0 (slots buffer) [] in
    update (set_buffer {| slots := slots'; others := others buffer |}) >>
    let* writeStream := gets writeStream in
    when (negb (bool_decide (batch = [])))
      (emit (Write writeStream (Js.join newline batch ++ newline))) >>
    update (set_index (Int 0)) >>
    update (set_isFlushing false).

(** log *)
Definition log (level : string) (message : value) : M bool :=
  let* isClosed := gets isClosed in
  if isClosed : bool
  then throw (Error "Logger is closed. Cannot log new messages.")
  else
    let* formattedMessage := formatMessage level message true in
    let* formattedMessageForFile := formatMessage level message false in
    let* inmediate := gets inmediate in
    (if inmediate || String.eqb level "warn" || String.eqb level "error"
     then emit (Write Stdout (formattedMessage ++ newline))
     else
       let* slot := gets index in
       let* buffer := gets buffer in
       update (set_buffer (setAt slot formattedMessage buffer)) >>
       let* bufferSize := gets bufferSize in
       update (set_index (succMod slot bufferSize)) >>
       let* next := gets index in
       when (isZero next) flush) >>
    let* fileStreams := gets fileStreams in
    writeTo (getProperty fileStreams level) (formattedMessageForFile ++ newline) >>
    ret true.

Definition info (message : value) : M bool := log "info" message.
Definition warn (message : value) : M bool := log "warn" message.
Definition error (message : value) : M bool := log "error" message.

Definition debug (message : value) : M bool :=
  if bool_decide (NODE_ENV env = Some "development")
  then log "debug" message
  else ret false.

(** The body of [flushLoop], which [startBuffering] runs once and the
    timer runs again every [flushInterval] milliseconds. *)
Definition flushLoop : M unit :=
  let* isClosed := gets isClosed in
  let* index := gets index in
  let* isFlushing := gets isFlushing in
  when (negb isClosed && isPositive index && negb isFlushing) flush.

Definition startBuffering : M unit := flushLoop.

(** close. Between its [await] and what follows, other callbacks may
    run; the instance is closed by then, so [log] throws, [flush] and
    [flushLoop] do nothing and the state met afterwards is the one
    left here. *)
Definition close : M unit :=
  let* isClosed := gets isClosed in
  if isClosed : bool then ret tt
  else
    update (set_isClosed true) >>
    let* index := gets index in
    let* isFlushing := gets isFlushing in
    when (isPositive index || isFlushing) flush >>
    let* writeStream := gets writeStream in
    when (negb (bool_decide (writeStream = Stdout))) (emit (End writeStream)) >>
    let* fileStreams := gets fileStreams in
    forEach (λ kv : string * stream, emit (End kv.2)) fileStreams.

(** initializeStreams. [fs.mkdirSync] and [fs.createWriteStream] are
    taken to return: a process that cannot make the directory [logs] is not
    modelled. *)
Definition initializeStreams : M (list (string * stream)) := λ w,
  let mk := if logsDir w then [] else [MkdirSync "logs"] in
  (Ok [ ("info", FileStream "logs/info.log");
        ("debug", FileStream "logs/debug.log");
        ("error", FileStream "logs/error.log");
        ("warn", FileStream "logs/warn.log") ],
   {| this := this w;
      trace := trace w ++ mk
               ++ [ CreateWriteStream "logs/info.log";
                    CreateWriteStream "logs/debug.log";
                    CreateWriteStream "logs/error.log";
                    CreateWriteStream "logs/warn.log" ];
      clock := clock w; logsDir := true |}).

Definition set_fileStreams (f : list (string * stream)) (l : Logger) : Logger :=
  {| source := source l; buffer := buffer l; bufferSize := bufferSize l;
     flushInterval := flushInterval l; isFlushing := isFlushing l;
     writeStream := writeStream l; index := index l; isClosed := isClosed l;
     highResTimestamps := highResTimestamps l; inmediate := inmediate l;
     fileStreams := f |}.

(** The constructor, run in a process whose trace, clock and [logs]
    directory are those of [w]; [filterDir] is [process.cwd()] and
    [stackText] the stack captured inside [getCallerClass]. The instance
    of [w] is replaced by the new one. *)
Definition constructor (options : ILoggerOptions)
    (filterDir stackText : string) : M unit := λ w,
  let bufferSize := default 1024%Z (opt_bufferSize options) in
  match newArray bufferSize with
  | Throw e => (Throw e, w)
  | Ok buffer =>
      let l :=
        {| source := SourceClass.getCallerClass filterDir stackText;
           buffer := buffer;
           bufferSize := bufferSize;
           flushInterval := default 200%Z (opt_flushInterval options);
           isFlushing := false;
           writeStream := default Stdout (opt_writeStream options);
           index := Int 0;
           isClosed := false;
           highResTimestamps := default false (opt_highResTimestamps options);
           inmediate := default true (opt_inmediate options);
           fileStreams := [] |} in
      (startBuffering >>
       let* streams := initializeStreams in
       update (set_fileStreams streams))
        {| this := l; trace := trace w; clock := clock w; logsDir := logsDir w |}
  end.

End Methods.

End Logger.

Import Logger.

(** ** What the properties are stated with *)

(** The four streams [initializeStreams] opens, in the order of the object
    literal. *)
Definition standardStreams : list (string * stream) :=
  [ ("info", FileStream "logs/info.log");
    ("debug", FileStream "logs/debug.log");
    ("error", FileStream "logs/error.log");
    ("warn", FileStream "logs/warn.log") ].

(** The error [log] throws on a closed instance. *)
Definition ClosedInstanceError : exn :=
  Error "Logger is closed. Cannot log new messages.".

(** A process in which nothing has happened yet. *)
Definition freshProcess : World :=
  {| this := {| source := EmptyString;
                buffer := {| slots := []; others := [] |};
                bufferSize := 0; flushInterval := 0; isFlushing := false;
                writeStream := Stdout; index := Int 0; isClosed := false;
                highResTimestamps := false; inmediate := false;
                fileStreams := [] |};
     trace := []; clock := 0; logsDir := false |}.

(** An environment for the examples: no objects but empty ones, a clock
    that answers [T0], [T1], ..., development mode. *)
Definition sampleEnv : Env :=
  {| objects := λ _, Plain [];
     stackDepth := 64;
     toISOString := λ k, "T" ++ Js.decimal (Z.of_nat k);
     hrtime := λ k, Z.of_nat k;
     NODE_ENV := Some "development" |}.

(** The stack captured when [new HTTPRequest(...)] builds its logger in a
    project checked out at [/app]. *)
Definition sampleStack : string :=
  Js.join newline
    [ "Error";
      "    at Logger.getCallerClass (/app/src/modules/helpers/SourceClass.ts:18:11)";
      "    at new Logger (/app/src/modules/classes/Logger.ts:56:25)";
      "    at new HTTPRequest (/app/src/modules/classes/HTTPRequest.ts:40:19)";
      "    at Object.<anonymous> (/app/src/main.ts:3:13)";
      "    at Module._compile (node:internal/modules/cjs/loader:1376:14)" ].

(** [new Logger({bufferSize, writeStream, inmediate})] in a fresh process. *)
Definition build (size : Z) (sink : stream) (immediate : bool) : World :=
  (constructor
     {| opt_bufferSize := Some size; opt_flushInterval := None;
        opt_writeStream := Some sink; opt_highResTimestamps := None;
        opt_inmediate := Some immediate |}
     "/app" sampleStack freshProcess).2.

Section Expected.

Variable env : Env.

(** The timestamp at the [k]-th reading of the clock. *)
Definition stamp (highRes : bool) (k : nat) : string :=
  if highRes then Js.decimal (hrtime env k) else toISOString env k.

(** The console line and the file line of a message whose value formats
    as [text], stamped at reading [k]. *)
Definition consoleText (highRes : bool) (src : string) (k : nat)
    (level text : string) : string :=
  "[" ++ stamp highRes k ++ "] " ++ colorOf level ++ "["
  ++ Js.toUpperCase level ++ "] " ++ src ++ reset ++ ": " ++ text.

Definition fileText (highRes : bool) (src : string) (k : nat)
    (level text : string) : string :=
  "[" ++ stamp highRes k ++ "] [" ++ Js.toUpperCase level ++ "] "
  ++ src ++ ": " ++ text.

(** [formatValue] on a message, in this environment. *)
Definition format (message : value) : result string :=
  formatValue (stackDepth env) (objects env) message.

Definition text (message : value) : string :=
  match format message with
  | Ok t => t
  | Throw _ => EmptyString
  end.

Definition formats (message : value) : Prop :=
  format message = Ok (text message).

(** The world after a sequence of [log] calls, each made in the world the
    one before left, with nothing in between. *)
Fixpoint logEach (entries : list (string * value)) (w : World) : World :=
  match entries with
  | [] => w
  | (level, message) :: entries' =>
      logEach entries' (log env level message w).2
  end.

(** The console lines and the file chunks of such a sequence that starts
    at reading [k]: every call reads the clock twice, first for the
    console line. *)
Fixpoint consoleLines (highRes : bool) (src : string) (k : nat)
    (entries : list (string * value)) : list string :=
  match entries with
  | [] => []
  | (level, message) :: entries' =>
      consoleText highRes src k level (text message)
      :: consoleLines highRes src (S (S k)) entries'
  end.

Fixpoint fileChunks (highRes : bool) (src : string) (k : nat)
    (entries : list (string * value)) : list string :=
  match entries with
  | [] => []
  | (level, message) :: entries' =>
      (fileText highRes src (S k) level (text message) ++ newline)
      :: fileChunks highRes src (S (S k)) entries'
  end.

(** The operations a caller, or the timer, applies to an instance. *)
Inductive operation :=
| CallLog (level : string) (message : value)
| CallInfo (message : value)
| CallWarn (message : value)
| CallError (message : value)
| CallDebug (message : value)
| CallFlush
| TimerRound
| CallClose.

Definition perform (op : operation) (w : World) : World :=
  match op with
  | CallLog level message => (log env level message w).2
  | CallInfo message => (info env message w).2
  | CallWarn message => (warn env message w).2
  | CallError message => (error env message w).2
  | CallDebug message => (debug env message w).2
  | CallFlush => (flush w).2
  | TimerRound => (flushLoop w).2
  | CallClose => (close w).2
  end.

Definition applyAll (ops : list operation) (w : World) : World :=
  foldl (λ w op, perform op w) w ops.

End Expected.

(** [0 ≤ index < bufferSize] *)
Definition indexInRange (l : Logger) : Prop :=
  ∃ z, index l = Int z ∧ (0 ≤ z < bufferSize l)%Z.

(** An instance in buffered mode between two calls: open, not flushing, its
    next slot [k] inside the buffer, the slots before [k] holding [lines] and
    the others empty, its file streams the four of the constructor and its
    console sink none of them. *)
Record Buffering (n k : nat) (lines : list string) (w : World) : Prop := {
  buf_open : isClosed (this w) = false;
  buf_idle : isFlushing (this w) = false;
  buf_mode : inmediate (this w) = false;
  buf_size : bufferSize (this w) = Z.of_nat n;
  buf_index : index (this w) = Int (Z.of_nat k);
  buf_slots : slots (buffer (this w)) = ((Some <$> lines) ++ replicate (n - k) None)%list;
  buf_lines : List.length lines = k;
  buf_truthy : Forall (λ s, s ≠ EmptyString) lines;
  buf_room : (k < n)%nat;
  buf_files : fileStreams (this w) = standardStreams;
  buf_console : ∀ f, writeStream (this w) ≠ FileStream f;
}.

(** The occurrences of [pat] in [s], overlapping ones included. *)
Fixpoint occurrences (pat s : string) : nat :=
  (if String.prefix pat s then 1 else 0)
  + match s with
    | EmptyString => 0
    | String _ s' => occurrences pat s'
    end.

(** The console line as the specification describes it: the colour closed
    right after the severity tag, and a second reset after the source
    label. *)
Definition consoleTextTwoResets (timestamp color level src text : string) : string :=
  "[" ++ timestamp ++ "] " ++ color ++ "[" ++ Js.toUpperCase level ++ "]"
  ++ reset ++ " " ++ src ++ reset ++ ": " ++ text.

(** *** The caller resolver in the words of the specification *)

(** The number a run of decimal digits denotes: each digit times the power
    of ten of its place. *)
Fixpoint numberOf (digits : string) : Z :=
  match digits with
  | EmptyString => 0%Z
  | String c rest =>
      ((Z.of_nat (nat_of_ascii c) - 48) * 10 ^ Z.of_nat (String.length rest)
       + numberOf rest)%Z
  end.

(** A frame as the specification parses it:
    [{identifier, filePath, lineNumber}]. *)
Record Frame := {
  symbol : string;
  filePath : string;
  lineNumber : Z;
}.

Definition parsed (m : SourceClass.RegExpMatch) : Frame :=
  {| symbol := SourceClass.group1 m;
     filePath := SourceClass.group2 m;
     lineNumber := numberOf (SourceClass.group3 m) |}.

(** The frames of a captured stack, innermost first: one for each line of
    the stack text that holds a frame. *)
Definition captured (stackText : string) : list Frame :=
  List.map parsed (SourceClass.stack stackText).

(** The file of the frame lies in the project: its path begins with the
    project root; it belongs to a dependency: its path goes through
    [node_modules]. *)
Definition inProject (root : string) (f : Frame) : bool :=
  String.prefix root (filePath f).
Definition inDependency (f : Frame) : bool :=
  Js.includes "node_modules" (filePath f).

(** The frame is anonymous, or its identifier is that of a generic
    wrapper: a plain object or a module-level function. *)
Definition isAnonymous (f : Frame) : bool :=
  Js.includes "<anonymous>" (symbol f).
Definition isWrapper (f : Frame) : bool :=
  String.prefix "Object." (symbol f) || String.prefix "Module." (symbol f).

(** The candidates: the top frame is discarded, the order reversed, so
    that the outermost frame comes first, and the frames outside the
    project, in a dependency, anonymous or of a wrapper are left out. *)
Definition candidates (root stackText : string) : list Frame :=
  List.filter (λ f, negb (isAnonymous f) && negb (isWrapper f))
    (List.filter (λ f, inProject root f && negb (inDependency f))
       (rev (tail (captured stackText)))).

(** Cutting at every white-space character. *)
Fixpoint splitWhiteSpace (s : string) : list string :=
  match s with
  | EmptyString => [EmptyString]
  | String c s' =>
      if Js.isWhiteSpace c then EmptyString :: splitWhiteSpace s'
      else match splitWhiteSpace s' with
           | [] => [String c EmptyString]
           | piece :: pieces => String c piece :: pieces
           end
  end.

(** The only white space of [s] is the space character. *)
Fixpoint onlySpaces (s : string) : bool :=
  match s with
  | EmptyString => true
  | String c s' => (negb (Js.isWhiteSpace c) || Ascii.eqb c " ") && onlySpaces s'
  end.

(** The name extraction: the part of the identifier before its first dot,
    cut into tokens at white space, the first token dropped when there are
    several, and the first of what is left returned. *)
Fixpoint beforeFirstDot (s : string) : string :=
  match s with
  | EmptyString => EmptyString
  | String c s' => if Ascii.eqb c "." then EmptyString else String c (beforeFirstDot s')
  end.

Definition bareIdentifier (ident : string) : string :=
  match splitWhiteSpace (beforeFirstDot ident) with
  | [] => EmptyString
  | [token] => token
  | _ :: second :: _ => second
  end.

(** The frame of the model for a frame of the specification: its line
    number as the Number [parseInt] yields. *)
Definition toStackFrame (f : Frame) : SourceClass.IStackFrame :=
  {| SourceClass.identifier := symbol f;
     SourceClass.path := filePath f;
     SourceClass.line := Js.toNumber (lineNumber f) |}.

(** A stack whose caller is a function with a tab in its name, and a
    stack whose two callers sit at lines 2^53 and 2^53 + 1. *)
Definition tabStack : string :=
  Js.join newline
    [ "Error";
      "    at Logger.getCallerClass (/app/src/modules/helpers/SourceClass.ts:18:11)";
      "    at get" ++ String (Js.chr 9) "label (/app/src/widget.ts:7:3)" ].

Definition longFileStack : string :=
  Js.join newline
    [ "Error";
      "    at Logger.getCallerClass (/app/src/modules/helpers/SourceClass.ts:18:11)";
      "    at new Second (/app/src/generated.ts:9007199254740992:1)";
      "    at new First (/app/src/generated.ts:9007199254740993:1)" ].

(** The events of [close] on an open instance. *)
Definition closing (w : World) : list event :=
  (if bool_decide (writeStream (this w) = Stdout) then []
   else [End (writeStream (this w))])
  ++ (End ∘ snd <$> fileStreams (this w)).

(** The world [w] after [k] more readings of the clock, with the events
    [es] added, and with the instance replaced. *)
Definition later (k : nat) (w : World) : World :=
  {| this := this w; trace := trace w; clock := k + clock w; logsDir := logsDir w |}.
Definition having (es : list event) (w : World) : World :=
  {| this := this w; trace := trace w ++ es; clock := clock w; logsDir := logsDir w |}.
Definition around (l : Logger) (w : World) : World :=
  {| this := l; trace := trace w; clock := clock w; logsDir := logsDir w |}.

(** Scenarios. *)

(** One buffered entry is pending in a buffer of four. *)
Definition pending : World :=
  (info sampleEnv (VString "a") (build 4 (UserStream 1) false)).2.

(** A buffer of two over a sink of its own, after [info("a")]; and after
    [warn("w")] and [info("b")] as well. *)
Definition afterInfo : World :=
  (info sampleEnv (VString "a") (build 2 (UserStream 1) false)).2.
Definition mixed : World :=
  (info sampleEnv (VString "b") (warn sampleEnv (VString "w") afterInfo).2).2.

(** The test that sends [log] down the immediate path. *)
Definition immediatePath (l : Logger) (level : string) : bool :=
  inmediate l || String.eqb level "warn" || String.eqb level "error".

(** What [flush] leaves of a world whose instance is open and not already
    flushing. *)
Definition flushed (w : World) : World :=
  let '(slots', batch) :=
    scan (Z.to_nat (bufferSize (this w))) 0 (slots (buffer (this w))) [] in
  around
    (set_isFlushing false
       (set_index (Int 0)
          (set_buffer {| slots := slots'; others := others (buffer (this w)) |}
             (set_isFlushing true (this w)))))
    (having
       (if bool_decide (batch = []) then []
        else [Write (writeStream (this w)) (Js.join newline batch ++ newline)])
       w).

(** What the buffered path of [log] leaves before it looks at the new
    index: the console line [entry] stored, the index advanced. *)
Definition stored (entry : string) (w : World) : World :=
  around
    (set_index (succMod (index (this w)) (bufferSize (this w)))
       (set_buffer (setAt (index (this w)) entry (buffer (this w))) (this w)))
    w.

(** How [index] may change in one operation: not at all, by the advance of
    the buffered path, or by the reset of [flush]; [bufferSize] never
    changes. *)
Definition indexStep (l l' : Logger) : Prop :=
  bufferSize l' = bufferSize l
  ∧ (index l' = index l
     ∨ index l' = succMod (index l) (bufferSize l)
     ∨ index l' = Int 0).

(** The file stream of a severity. *)
Definition fileOf (level : string) : stream :=
  FileStream ("logs/" ++ level ++ ".log").

Section ExpectedEvents.

Variable env : Env.

(** The file writes of a sequence of [log] calls that starts at reading
    [k]. *)
Fixpoint fileEvents (highRes : bool) (src : string) (k : nat)
    (entries : list (string * value)) : list event :=
  match entries with
  | [] => []
  | (level, message) :: entries' =>
      Write (fileOf level)
        (fileText env highRes src (S k) level (text env message) ++ newline)
      :: fileEvents highRes src (S (S k)) entries'
  end.

(** What each call of such a sequence returns. *)
Fixpoint logResults (entries : list (string * value)) (w : World)
  : list (result bool) :=
  match entries with
  | [] => []
  | (level, message) :: entries' =>
      (log env level message w).1
      :: logResults entries' (log env level message w).2
  end.

(** An entry the buffered path takes and a file stream exists for. *)
Definition buffered (entry : string * value) : Prop :=
  entry.1 ∈ ["info"; "debug"] ∧ formats env entry.2.

End ExpectedEvents.

(** The configuration no method changes. *)
Definition sameSetup (w w' : World) : Prop :=
  source (this w') = source (this w)
  ∧ highResTimestamps (this w') = highResTimestamps (this w)
  ∧ writeStream (this w') = writeStream (this w).

(** Objects that contain themselves: a Map, a Set, a plain object and an
    array. *)
Definition cyclic : heap := λ a,
  match a with
  | 0 => MapObj [(VString "self", VObject 0)]
  | 1 => SetObj [VObject 1]
  | 2 => Plain [("self", VObject 2)]
  | 3 => Arr [VObject 3]
  | _ => Plain []
  end.

(** The sample environment with those objects and a call stack of the
    given depth. *)
Definition cyclicEnv (depth : nat) : Env :=
  {| objects := cyclic; stackDepth := depth;
     toISOString := toISOString sampleEnv; hrtime := hrtime sampleEnv;
     NODE_ENV := NODE_ENV sampleEnv |}.

(** The four severities, with the colour and the tag of each. *)
Definition severities : list (string * string * string) :=
  [ ("info", esc "[32m", "INFO");
    ("warn", esc "[33m", "WARN");
    ("error", esc "[31m", "ERROR");
    ("debug", esc "[34m", "DEBUG") ].

(** ** What the further properties are stated with *)

(** The entry [flush] takes from a slot, if any, and what it leaves in the
    slot: a truthy slot is taken and set to [null]; [null], a hole and the
    empty string stay. *)
Definition taken (slot : option string) : option string :=
  match slot with
  | Some entry => if String.eqb entry EmptyString then None else Some entry
  | None => None
  end.

Definition left (slot : option string) : option string :=
  match slot with
  | Some entry => if String.eqb entry EmptyString then slot else None
  | None => None
  end.

(** The fields of an instance that are declared [readonly] and are not
    containers. *)
Definition configOf (l : Logger)
  : string * Z * Z * stream * bool * bool * list (string * stream) :=
  (source l, bufferSize l, flushInterval l, writeStream l,
   highResTimestamps l, inmediate l, fileStreams l).


(** The Maps and Sets of [v] nest at most [r] deep: a primitive, a plain
    object and an array at any [r]; a Map or a Set at [r + 1] when its
    members do at [r]. *)
Fixpoint nests (h : heap) (r : nat) (v : value) : bool :=
  match v with
  | VObject a =>
      match h a with
      | MapObj entries =>
          match r with
          | O => false
          | S r' => forallb (λ kv, nests h r' kv.1 && nests h r' kv.2) entries
          end
      | SetObj values =>
          match r with
          | O => false
          | S r' => forallb (nests h r') values
          end
      | Plain _ | Arr _ => true
      end
  | _ => true
  end.

(** A Map of a Set and a plain object that holds itself. *)
Definition nestedHeap : heap := λ a,
  match a with
  | 0 => MapObj [(VString "tags", VObject 1); (VString "self", VObject 2)]
  | 1 => SetObj [VString "x"; VBigInt 7]
  | 2 => Plain [("me", VObject 2)]
  | _ => Plain []
  end.




Section ExpectedBuffer.

Variable env : Env.
Variables (n : nat) (immediate highRes : bool) (src : string).




End ExpectedBuffer.


(** The text of some lines, each ended by a newline, and all the text a
    stream has received. *)
Definition linesText (lines : list string) : string :=
  Js.join EmptyString ((λ l, l ++ newline) <$> lines).

Definition received (s : stream) (t : list event) : string :=
  Js.join EmptyString (written s t).

Section BufferedCalls.

Variable env : Env.

(** The operations of an instance in buffered mode that reach the console
    sink: [log] and [info] calls the buffered path takes, [flush] calls and
    timer rounds. *)
Definition bufferedCall (op : operation) : Prop :=
  match op with
  | CallLog level message => buffered env (level, message)
  | CallInfo message => formats env message
  | CallFlush | TimerRound => True
  | _ => False
  end.

(** The console lines of the logging calls among such operations, in call
    order, the first call reading the clock at [k]. *)
Fixpoint callLines (highRes : bool) (src : string) (k : nat)
    (ops : list operation) : list string :=
  match ops with
  | [] => []
  | CallLog level message :: ops' =>
      consoleText env highRes src k level (text env message)
      :: callLines highRes src (S (S k)) ops'
  | CallInfo message :: ops' =>
      consoleText env highRes src k "info" (text env message)
      :: callLines highRes src (S (S k)) ops'
  | _ :: ops' => callLines highRes src k ops'
  end.

End BufferedCalls.


(** The streams a trace ends, in order. *)
Definition ended (t : list event) : list stream :=
  omap (λ e, match e with End s => Some s | _ => None end) t.

(** What a [log] call may add to the trace: a write to the standard
    output, a write to a stream the instance owns under some key of
    [fileStreams], or the write of a flush to the console sink, which takes a
    call on the buffered path whose advance brings the index to 0. *)
Definition logEvent (l : Logger) (level : string) (e : event) : Prop :=
  ∃ s chunk,
    e = Write s chunk
    ∧ (s = Stdout
       ∨ (∃ key, getProperty (fileStreams l) key = Own s)
       ∨ (s = writeStream l
          ∧ immediatePath l level = false
          ∧ isZero (succMod (index l) (bufferSize l)) = true)).

(** The state of an instance whose buffer holds nothing to flush. *)
Definition nothingPending (w : World) : Prop :=
  isFlushing (this w) = false
  ∧ index (this w) = Int 0
  ∧ omap taken (take (Z.to_nat (bufferSize (this w)))
                  (slots (buffer (this w)))) = [].


(** Texts made of decimal digits, and texts without a line terminator. *)
Fixpoint allDigits (s : string) : bool :=
  match s with
  | EmptyString => true
  | String c s' => Js.isDigit c && allDigits s'
  end.

Fixpoint oneLine (s : string) : bool :=
  match s with
  | EmptyString => true
  | String c s' => negb (Js.isLineTerminator c) && oneLine s'
  end.

(** An occurrence of the pattern [/at (.+?) \((.+?):(\d+):(\d+)\)/] in [s]:
    after [pre], the text [at ], a first group, a space and a parenthesis, a
    second group, and two runs of digits, each after a colon, closed by a
    parenthesis. The groups of [.+?] are not empty and hold no line
    terminator; the groups of [\d+] are not empty. *)
Definition located (s pre g1 g2 ln col post : string) : Prop :=
  s = pre ++ "at " ++ g1 ++ " (" ++ g2 ++ ":" ++ ln ++ ":" ++ col ++ ")" ++ post
  ∧ g1 ≠ EmptyString ∧ oneLine g1 = true
  ∧ g2 ≠ EmptyString ∧ oneLine g2 = true
  ∧ ln ≠ EmptyString ∧ allDigits ln = true
  ∧ col ≠ EmptyString ∧ allDigits col = true.

(** * Properties *)

(** ** The monad, step by step *)

Lemma bind_Ok {A B : Type} (m : M A) (f : A → M B) w a w' :
  m w = (Ok a, w') → bind m f w = f a w'.
Proof. intros H. unfold bind. by rewrite H. Qed.

Lemma bind_Throw {A B : Type} (m : M A) (f : A → M B) w e w' :
  m w = (Throw e, w') → bind m f w = (Throw e, w').
Proof. intros H. unfold bind. by rewrite H. Qed.

Lemma world_eta w :
  {| this := this w; trace := trace w; clock := clock w; logsDir := logsDir w |} = w.
Proof. by destruct w. Qed.

Lemma forEach_End (l : list (string * stream)) w :
  forEach (λ kv : string * stream, emit (End kv.2)) l w
  = (Ok tt, {| this := this w; trace := trace w ++ (End ∘ snd <$> l);
               clock := clock w; logsDir := logsDir w |}).
Proof.
  revert w. induction l as [|kv l IH]; intros w; simpl.
  - unfold ret. by rewrite app_nil_r, world_eta.
  - unfold bind, emit. rewrite IH. simpl. by rewrite <- app_assoc.
Qed.

(** ** flush and close on a closed instance *)

Lemma flush_closed w : isClosed (this w) = true → flush w = (Ok tt, w).
Proof.
  intros H. unfold flush, bind, gets, ret. simpl. rewrite H.
  by rewrite orb_true_r.
Qed.

Lemma flush_flushing w : isFlushing (this w) = true → flush w = (Ok tt, w).
Proof. intros H. unfold flush, bind, gets, ret. simpl. by rewrite H. Qed.

Lemma close_open w :
  isClosed (this w) = false →
  close w = (Ok tt, {| this := set_isClosed true (this w);
                       trace := trace w ++ closing w;
                       clock := clock w; logsDir := logsDir w |}).
Proof.
  intros H. destruct w as [l t c d]. simpl in *.
  unfold close, closing, bind, gets, update, when, ret. simpl. rewrite H.
  assert (Hf : ∀ b : bool,
    (if b then flush else λ w, (Ok tt, w))
      {| this := set_isClosed true l; trace := t; clock := c; logsDir := d |}
    = (Ok tt, {| this := set_isClosed true l; trace := t; clock := c; logsDir := d |})).
  { intros [|]; [by apply flush_closed | done]. }
  rewrite Hf. simpl.
  destruct (bool_decide (writeStream l = Stdout)); simpl.
  - rewrite forEach_End. done.
  - unfold emit. rewrite forEach_End. simpl. by rewrite <- app_assoc.
Qed.

Lemma close_closed w : isClosed (this w) = true → close w = (Ok tt, w).
Proof. intros H. unfold close, bind, gets, ret. simpl. by rewrite H. Qed.

Lemma close_isClosed w : isClosed (this (close w).2) = true.
Proof.
  destruct (isClosed (this w)) eqn:H.
  - by rewrite close_closed.
  - by rewrite close_open.
Qed.

Lemma log_closed env level message w :
  isClosed (this w) = true →
  log env level message w = (Throw ClosedInstanceError, w).
Proof. intros H. unfold log, bind, gets, throw. simpl. by rewrite H. Qed.

(** C3: once [close()] has completed, every [log] call, every [info],
    [warn] and [error] call, and every [debug] call in development mode
    throws the closed-instance error and leaves the world exactly as it was:
    no event is added to the trace, so nothing is written to the console or
    to a file, and the buffer and the index are untouched. *)
Theorem post_close_rejection (env : Env) (w : World) :
  let closed := (close w).2 in
  isClosed (this closed) = true
  ∧ (∀ level message,
       log env level message closed = (Throw ClosedInstanceError, closed))
  ∧ (∀ message,
       info env message closed = (Throw ClosedInstanceError, closed)
       ∧ warn env message closed = (Throw ClosedInstanceError, closed)
       ∧ error env message closed = (Throw ClosedInstanceError, closed)
       ∧ (NODE_ENV env = Some "development" →
          debug env message closed = (Throw ClosedInstanceError, closed))).
Proof.
  intros closed. pose proof (close_isClosed w) as H. fold closed in H.
  split; [done|]. split.
  - intros. by apply log_closed.
  - intros message. unfold info, warn, error, debug.
    repeat split; try by apply log_closed.
    intros Hdev. rewrite bool_decide_eq_true_2 by done. by apply log_closed.
Qed.

Lemma post_close_rejection_witness :
  NODE_ENV sampleEnv = Some "development"
  ∧ debug sampleEnv (VString "late") (close (build 4 Stdout false)).2
    = (Throw ClosedInstanceError, (close (build 4 Stdout false)).2).
Proof.
  split; [reflexivity|].
  apply (post_close_rejection sampleEnv (build 4 Stdout false)). reflexivity.
Defined.

(** ** formatMessage *)

Lemma formatMessage_Ok env level message isConsole w t :
  format env message = Ok t →
  formatMessage env level message isConsole w
  = (Ok (if isConsole
         then consoleText env (highResTimestamps (this w)) (source (this w))
                (clock w) level t
         else fileText env (highResTimestamps (this w)) (source (this w))
                (clock w) level t),
     later 1 w).
Proof.
  intros H. unfold format in H.
  unfold formatMessage, timestamp, bind, lift, gets, ret. simpl. rewrite H.
  by destruct isConsole.
Qed.

Lemma formatMessage_Throw env level message isConsole w e :
  format env message = Throw e →
  formatMessage env level message isConsole w = (Throw e, later 1 w).
Proof.
  intros H. unfold format in H.
  unfold formatMessage, timestamp, bind, lift. simpl. by rewrite H.
Qed.

(** ** log on the immediate path *)

Lemma log_immediate env level message w t fs :
  isClosed (this w) = false →
  immediatePath (this w) level = true →
  format env message = Ok t →
  getProperty (fileStreams (this w)) level = Own fs →
  log env level message w
  = (Ok true,
     having [Write Stdout
               (consoleText env (highResTimestamps (this w)) (source (this w))
                  (clock w) level t ++ newline);
             Write fs
               (fileText env (highResTimestamps (this w)) (source (this w))
                  (S (clock w)) level t ++ newline)]
       (later 2 w)).
Proof.
  intros Hopen Hpath Ht Hfs. unfold immediatePath in Hpath.
  unfold log. rewrite (bind_Ok _ _ w false w) by (unfold gets; by rewrite Hopen).
  rewrite (bind_Ok _ _ _ _ _ (formatMessage_Ok env level message true w t Ht)).
  rewrite (bind_Ok _ _ _ _ _ (formatMessage_Ok env level message false _ t Ht)).
  unfold bind, gets, emit, ret, later, having.
  cbn -[getProperty consoleText fileText].
  rewrite Hpath. cbn -[getProperty consoleText fileText]. rewrite Hfs. cbn -[consoleText fileText].
  unfold having, later. cbn -[consoleText fileText]. by rewrite <- app_assoc.
Qed.

Lemma log_immediate_no_stream env level message w t :
  isClosed (this w) = false →
  immediatePath (this w) level = true →
  format env message = Ok t →
  (∀ fs, getProperty (fileStreams (this w)) level ≠ Own fs) →
  log env level message w
  = (Throw TypeError,
     having [Write Stdout
               (consoleText env (highResTimestamps (this w)) (source (this w))
                  (clock w) level t ++ newline)]
       (later 2 w)).
Proof.
  intros Hopen Hpath Ht Hfs. unfold immediatePath in Hpath.
  unfold log. rewrite (bind_Ok _ _ w false w) by (unfold gets; by rewrite Hopen).
  rewrite (bind_Ok _ _ _ _ _ (formatMessage_Ok env level message true w t Ht)).
  rewrite (bind_Ok _ _ _ _ _ (formatMessage_Ok env level message false _ t Ht)).
  unfold bind, gets, emit, ret, later, having.
  cbn -[getProperty consoleText fileText].
  rewrite Hpath. cbn -[getProperty consoleText fileText].
  destruct (getProperty (fileStreams (this w)) level) as [fs| |] eqn:E;
    cbn -[consoleText fileText].
  - by destruct (Hfs fs).
  - done.
  - done.
Qed.

(** ** What [close] writes *)

Lemma written_app s t1 t2 : written s (t1 ++ t2) = (written s t1 ++ written s t2)%list.
Proof. unfold written. apply omap_app. Qed.

Lemma written_closing s w : written s (closing w) = [].
Proof.
  unfold closing. rewrite written_app.
  assert (written s (End ∘ snd <$> fileStreams (this w)) = []) as ->.
  { induction (fileStreams (this w)); simpl; done. }
  by destruct (bool_decide _).
Qed.

Lemma close_writes_nothing w s :
  written s (trace (close w).2) = written s (trace w)
  ∧ buffer (this (close w).2) = buffer (this w).
Proof.
  destruct (isClosed (this w)) eqn:H.
  - by rewrite close_closed.
  - rewrite close_open by done. simpl.
    by rewrite written_app, written_closing, app_nil_r.
Qed.

(** C1: [close()] is meant to drain the buffer into the console sink.
    It does not. On every open instance with pending entries (an index
    above 0), [close()] returns after adding to the trace nothing but the
    ends of the streams: no stream has received anything it had not
    received before, the console sink included, and the buffer still holds
    the entries, which no later call can flush. *)
Theorem close_loses_buffered_entries (w : World) :
  isClosed (this w) = false →
  isPositive (index (this w)) = true →
  close w = (Ok tt, around (set_isClosed true (this w)) (having (closing w) w))
  ∧ (∀ s, written s (trace (close w).2) = written s (trace w))
  ∧ buffer (this (close w).2) = buffer (this w)
  ∧ flush (close w).2 = (Ok tt, (close w).2).
Proof.
  intros Hopen _. split; [by rewrite close_open|]. split; [|split].
  - intros s. apply close_writes_nothing.
  - apply (close_writes_nothing w Stdout).
  - apply flush_closed, close_isClosed.
Qed.

(** The failing input of C1: one entry pending in a buffer of four, over a
    console sink of its own. *)
Lemma close_loses_buffered_entries_witness :
  isClosed (this pending) = false
  ∧ isPositive (index (this pending)) = true
  ∧ slots (buffer (this pending))
    = [Some (consoleText sampleEnv false "HTTPRequest" 0 "info" "a");
       None; None; None]
  ∧ written (UserStream 1) (trace pending) = []
  ∧ (close pending).1 = Ok tt
  ∧ written (UserStream 1) (trace (close pending).2) = []
  ∧ slots (buffer (this (close pending).2))
    = [Some (consoleText sampleEnv false "HTTPRequest" 0 "info" "a");
       None; None; None]
  ∧ trace (close pending).2
    = (trace pending
       ++ [End (UserStream 1); End (FileStream "logs/info.log");
           End (FileStream "logs/debug.log"); End (FileStream "logs/error.log");
           End (FileStream "logs/warn.log")])%list.
Proof.
  destruct (close_loses_buffered_entries pending eq_refl eq_refl)
    as (E & Hwritten & Hbuffer & _).
  split; [reflexivity|]. split; [reflexivity|]. split; [reflexivity|].
  split; [reflexivity|]. split; [by rewrite E|].
  split; [by rewrite (Hwritten (UserStream 1))|].
  split; [by rewrite Hbuffer|]. by rewrite E.
Defined.

(** C2: the immediate path is meant to write to the configured console
    sink. It writes to the standard output of the process: on every open
    instance whose console sink is another stream, a [log] call on the
    immediate path adds its console line to what the standard output has
    received and nothing to what the configured sink has received. *)
Theorem immediate_path_writes_to_stdout env w level message t fs :
  isClosed (this w) = false →
  immediatePath (this w) level = true →
  format env message = Ok t →
  getProperty (fileStreams (this w)) level = Own fs →
  writeStream (this w) ≠ Stdout →
  fs ≠ Stdout → fs ≠ writeStream (this w) →
  (log env level message w).1 = Ok true
  ∧ written Stdout (trace (log env level message w).2)
    = (written Stdout (trace w)
       ++ [(consoleText env (highResTimestamps (this w)) (source (this w))
              (clock w) level t ++ newline)%string])%list
  ∧ written (writeStream (this w)) (trace (log env level message w).2)
    = written (writeStream (this w)) (trace w).
Proof.
  intros Hopen Hpath Ht Hfs Hsink Hfs1 Hfs2.
  rewrite (log_immediate env level message w t fs) by done.
  split; [done|]. cbn [snd having later trace]. rewrite !written_app. cbn.
  rewrite (bool_decide_eq_true_2 (Stdout = Stdout)) by done.
  rewrite (bool_decide_eq_false_2 (fs = Stdout)) by done.
  rewrite (bool_decide_eq_false_2 (Stdout = writeStream (this w))) by done.
  rewrite (bool_decide_eq_false_2 (fs = writeStream (this w))) by done.
  by rewrite app_nil_r.
Qed.

(** The failing input of C2: a buffer of two over a console sink of its
    own; [info("a")], [warn("w")], [info("b")]. The batch of the two [info]
    lines reaches the configured sink, the [warn] line the standard
    output. *)
Lemma immediate_path_writes_to_stdout_witness :
  writeStream (this mixed) = UserStream 1
  ∧ written (UserStream 1) (trace mixed)
    = [consoleText sampleEnv false "HTTPRequest" 0 "info" "a" ++ newline
       ++ consoleText sampleEnv false "HTTPRequest" 4 "info" "b" ++ newline]
  ∧ written Stdout (trace mixed)
    = [consoleText sampleEnv false "HTTPRequest" 2 "warn" "w" ++ newline]
  ∧ written (UserStream 1) (trace afterInfo) = []
  ∧ written (UserStream 1)
      (trace (warn sampleEnv (VString "w") afterInfo).2) = [].
Proof.
  assert (Hsink : writeStream (this afterInfo) ≠ Stdout) by discriminate.
  assert (Hfs1 : FileStream "logs/warn.log" ≠ Stdout) by discriminate.
  assert (Hfs2 : FileStream "logs/warn.log" ≠ writeStream (this afterInfo))
    by discriminate.
  destruct (immediate_path_writes_to_stdout sampleEnv afterInfo "warn"
              (VString "w") "w" (FileStream "logs/warn.log")
              eq_refl eq_refl eq_refl eq_refl Hsink Hfs1 Hfs2)
    as (_ & _ & Hsame).
  split; [reflexivity|]. split; [vm_compute; reflexivity|].
  split; [vm_compute; reflexivity|]. split; [reflexivity|].
  unfold warn. vm_compute in Hsame. vm_compute. exact Hsame.
Defined.

(** ** flush *)

Lemma flush_open w :
  isFlushing (this w) = false → isClosed (this w) = false →
  flush w = (Ok tt, flushed w).
Proof.
  intros Hf Hc. unfold flush, flushed, bind, gets, update, when, ret.
  cbn -[scan]. rewrite Hf, Hc. cbn -[scan].
  destruct (scan _ 0 _ []) as [slots' batch]. cbn.
  destruct (bool_decide (batch = [])); cbn.
  - unfold around, having. cbn. by rewrite app_nil_r.
  - done.
Qed.

Lemma flush_cases w : flush w = (Ok tt, w) ∨ flush w = (Ok tt, flushed w).
Proof.
  destruct (isFlushing (this w)) eqn:Hf; [left; by apply flush_flushing|].
  destruct (isClosed (this w)) eqn:Hc; [left; by apply flush_closed|].
  right. by apply flush_open.
Qed.

Lemma flushed_fileStreams w : fileStreams (this (flushed w)) = fileStreams (this w).
Proof. unfold flushed. by destruct (scan _ _ _ _). Qed.

Lemma flushed_indexStep w : indexStep (this w) (this (flushed w)).
Proof. unfold flushed, indexStep. destruct (scan _ _ _ _). cbn. auto. Qed.

Lemma flush_fileStreams w : fileStreams (this (flush w).2) = fileStreams (this w).
Proof.
  destruct (flush_cases w) as [-> | ->]; [done | apply flushed_fileStreams].
Qed.

Lemma flush_Ok w : (flush w).1 = Ok tt.
Proof. by destruct (flush_cases w) as [-> | ->]. Qed.

Lemma when_flush_cases b w :
  when b flush w = (Ok tt, w) ∨ when b flush w = (Ok tt, flushed w).
Proof. destruct b; [apply flush_cases | by left]. Qed.

(** ** log on the buffered path *)

Lemma log_buffered env level message w t :
  isClosed (this w) = false →
  immediatePath (this w) level = false →
  format env message = Ok t →
  let entry := consoleText env (highResTimestamps (this w)) (source (this w))
                 (clock w) level t in
  let chunk := fileText env (highResTimestamps (this w)) (source (this w))
                 (S (clock w)) level t ++ newline in
  let w1 := stored entry (later 2 w) in
  let w2 := (when (isZero (index (this w1))) flush w1).2 in
  log env level message w
  = bind (writeTo (getProperty (fileStreams (this w2)) level) chunk)
      (λ _, ret true) w2.
Proof.
  intros Hopen Hpath Ht entry chunk w1 w2. unfold immediatePath in Hpath.
  unfold log. rewrite (bind_Ok _ _ w false w) by (unfold gets; by rewrite Hopen).
  rewrite (bind_Ok _ _ _ _ _ (formatMessage_Ok env level message true w t Ht)).
  rewrite (bind_Ok _ _ _ _ _ (formatMessage_Ok env level message false _ t Ht)).
  unfold bind at 1, gets at 1. unfold bind at 1. cbn -[getProperty consoleText fileText flush bind].
  rewrite Hpath.
  fold entry chunk.
  assert (E : (let* slot := gets index
        in let* buffer := gets buffer
           in update (set_buffer (setAt slot entry buffer)) >>
              let* bufferSize := gets bufferSize
              in update (set_index (succMod slot bufferSize)) >>
                 let* next := gets index in when (isZero next) flush)
       (later 1 (later 1 w)) = when (isZero (index (this w1))) flush w1).
  { unfold bind, gets, update. reflexivity. }
  rewrite E.
  destruct (when_flush_cases (isZero (index (this w1))) w1) as [H|H];
    subst w2; rewrite H; reflexivity.
Qed.

Lemma log_immediate_writeTo env level message w t :
  isClosed (this w) = false →
  immediatePath (this w) level = true →
  format env message = Ok t →
  log env level message w
  = bind (writeTo (getProperty (fileStreams (this w)) level)
            (fileText env (highResTimestamps (this w)) (source (this w))
               (S (clock w)) level t ++ newline))
      (λ _, ret true)
      (having [Write Stdout
                 (consoleText env (highResTimestamps (this w)) (source (this w))
                    (clock w) level t ++ newline)]
         (later 2 w)).
Proof.
  intros Hopen Hpath Ht. unfold immediatePath in Hpath.
  unfold log. rewrite (bind_Ok _ _ w false w) by (unfold gets; by rewrite Hopen).
  rewrite (bind_Ok _ _ _ _ _ (formatMessage_Ok env level message true w t Ht)).
  rewrite (bind_Ok _ _ _ _ _ (formatMessage_Ok env level message false _ t Ht)).
  unfold bind at 1, gets at 1. unfold bind at 1.
  cbn -[getProperty consoleText fileText flush bind].
  rewrite Hpath. reflexivity.
Qed.

Lemma log_format_Throw env level message w e :
  isClosed (this w) = false →
  format env message = Throw e →
  log env level message w = (Throw e, later 1 w).
Proof.
  intros Hopen He.
  unfold log. rewrite (bind_Ok _ _ w false w) by (unfold gets; by rewrite Hopen).
  by rewrite (bind_Throw _ _ _ _ _ (formatMessage_Throw env level message true w e He)).
Qed.

Lemma writeTo_no_stream p chunk w :
  (∀ s, p ≠ Own s) →
  bind (writeTo p chunk) (λ _, ret true) w = (Throw TypeError, w).
Proof. intros H. destruct p as [s| |]; [by destruct (H s) | done | done]. Qed.

Lemma writeTo_ret_this p chunk w :
  this (bind (writeTo p chunk) (λ _, ret true) w).2 = this w.
Proof. by destruct p. Qed.

(** ** A severity without a file stream *)

Ltac in_list :=
  repeat first [apply list_elem_of_here | apply list_elem_of_further].

Lemma no_stream_for level :
  level ∉ ["info"; "warn"; "error"; "debug"] →
  ∀ s, getProperty standardStreams level ≠ Own s.
Proof.
  intros Hnot s. unfold getProperty, standardStreams. cbn [assoc].
  destruct (String.eqb_spec "info" level) as [<-|_];
    [exfalso; apply Hnot; in_list|].
  destruct (String.eqb_spec "debug" level) as [<-|_];
    [exfalso; apply Hnot; in_list|].
  destruct (String.eqb_spec "error" level) as [<-|_];
    [exfalso; apply Hnot; in_list|].
  destruct (String.eqb_spec "warn" level) as [<-|_];
    [exfalso; apply Hnot; in_list|].
  by destruct (bool_decide _).
Qed.

(** C10: on an open instance, [log] with a severity outside [info],
    [warn], [error], [debug] never returns normally. When the message
    formats, what is thrown is the [TypeError] of the file-sink lookup; on
    the immediate path the console line has been written to the standard
    output by then and stays written. *)
Theorem log_unknown_severity env w level message :
  isClosed (this w) = false →
  fileStreams (this w) = standardStreams →
  level ∉ ["info"; "warn"; "error"; "debug"] →
  (∃ e, (log env level message w).1 = Throw e)
  ∧ (∀ t, format env message = Ok t →
       (log env level message w).1 = Throw TypeError
       ∧ (inmediate (this w) = true →
          log env level message w
          = (Throw TypeError,
             having [Write Stdout
                       (consoleText env (highResTimestamps (this w))
                          (source (this w)) (clock w) level t ++ newline)]
               (later 2 w)))).
Proof.
  intros Hopen Hfiles Hlevel.
  assert (Hall : ∀ t, format env message = Ok t →
       (log env level message w).1 = Throw TypeError
       ∧ (inmediate (this w) = true →
          log env level message w
          = (Throw TypeError,
             having [Write Stdout
                       (consoleText env (highResTimestamps (this w))
                          (source (this w)) (clock w) level t ++ newline)]
               (later 2 w)))).
  { intros t Ht. destruct (immediatePath (this w) level) eqn:Hpath.
    - rewrite (log_immediate_writeTo env level message w t) by done.
      rewrite writeTo_no_stream
        by (cbn [this having later]; rewrite Hfiles; by apply no_stream_for).
      done.
    - split.
      + rewrite (log_buffered env level message w t) by done.
        rewrite writeTo_no_stream; [done|].
        unfold when. destruct (isZero _).
        * rewrite flush_fileStreams. cbn. rewrite Hfiles. by apply no_stream_for.
        * cbn. rewrite Hfiles. by apply no_stream_for.
      + intros Him. unfold immediatePath in Hpath. by rewrite Him in Hpath. }
  split; [|done].
  destruct (format env message) as [t|e] eqn:Hf.
  - exists TypeError. by apply (Hall t).
  - exists e. by rewrite (log_format_Throw env level message w e).
Qed.

Lemma log_unknown_severity_witness :
  isClosed (this (build 4 Stdout true)) = false
  ∧ fileStreams (this (build 4 Stdout true)) = standardStreams
  ∧ ("verbose" ∉ ["info"; "warn"; "error"; "debug"])
  ∧ (∃ e, (log sampleEnv "verbose" (VString "x") (build 4 Stdout true)).1 = Throw e)
  ∧ (log sampleEnv "verbose" (VString "x") (build 4 Stdout true)).1 = Throw TypeError
  ∧ written Stdout
      (trace (log sampleEnv "verbose" (VString "x") (build 4 Stdout true)).2)
    = [consoleText sampleEnv false "HTTPRequest" 0 "verbose" "x" ++ newline].
Proof.
  assert (Hlevel : "verbose" ∉ ["info"; "warn"; "error"; "debug"]).
  { intros H. repeat (apply elem_of_cons in H as [H|H]; [discriminate H|]).
    by apply elem_of_nil in H. }
  split; [reflexivity|]. split; [reflexivity|]. split; [exact Hlevel|].
  destruct (log_unknown_severity sampleEnv (build 4 Stdout true) "verbose"
              (VString "x") eq_refl eq_refl Hlevel) as [Hthrows Hformat].
  destruct (Hformat "x" eq_refl) as [Htype Himmediate].
  split; [exact Hthrows|]. split; [exact Htype|].
  rewrite (Himmediate eq_refl). reflexivity.
Defined.

(** ** The index across operations *)

Lemma indexStep_refl l : indexStep l l.
Proof. split; auto. Qed.

Lemma flush_indexStep w : indexStep (this w) (this (flush w).2).
Proof.
  destruct (flush_cases w) as [-> | ->];
    [apply indexStep_refl | apply flushed_indexStep].
Qed.

Lemma when_flush_indexStep b w : indexStep (this w) (this (when b flush w).2).
Proof. destruct b; [apply flush_indexStep | apply indexStep_refl]. Qed.

Lemma flushLoop_indexStep w : indexStep (this w) (this (flushLoop w).2).
Proof. unfold flushLoop, bind, gets. apply when_flush_indexStep. Qed.

Lemma close_indexStep w : indexStep (this w) (this (close w).2).
Proof.
  destruct (isClosed (this w)) eqn:H.
  - rewrite close_closed by done. apply indexStep_refl.
  - rewrite close_open by done. split; auto.
Qed.

Lemma log_indexStep env level message w :
  indexStep (this w) (this (log env level message w).2).
Proof.
  destruct (isClosed (this w)) eqn:Hopen.
  { rewrite log_closed by done. apply indexStep_refl. }
  destruct (format env message) as [t|e] eqn:Hf.
  2: { rewrite (log_format_Throw env level message w e) by done.
       apply indexStep_refl. }
  destruct (immediatePath (this w) level) eqn:Hpath.
  { rewrite (log_immediate_writeTo env level message w t) by done.
    rewrite writeTo_ret_this. apply indexStep_refl. }
  rewrite (log_buffered env level message w t) by done.
  rewrite writeTo_ret_this.
  set (w1 := stored _ (later 2 w)).
  destruct (when_flush_cases (isZero (index (this w1))) w1) as [-> | ->].
  - subst w1. split; cbn; auto.
  - cbn [snd]. destruct (flushed_indexStep w1) as [Hsize _].
    split; [by rewrite Hsize|].
    right. right. unfold flushed. by destruct (scan _ _ _ _).
Qed.

Lemma perform_indexStep env op w : indexStep (this w) (this (perform env op w)).
Proof.
  destruct op; cbn [perform]; unfold info, warn, error, debug;
    try apply log_indexStep.
  - destruct (bool_decide _); [apply log_indexStep | apply indexStep_refl].
  - apply flush_indexStep.
  - apply flushLoop_indexStep.
  - apply close_indexStep.
Qed.

Lemma indexStep_inRange l l' :
  indexStep l l' → indexInRange l → indexInRange l'.
Proof.
  intros [Hsize Hidx] (z & Hz & Hr). unfold indexInRange. rewrite Hsize.
  destruct Hidx as [-> | [-> | ->]].
  - by exists z.
  - rewrite Hz. cbn. destruct (Z.eqb_spec (bufferSize l) 0) as [E|_]; [lia|].
    exists (Z.rem (z + 1) (bufferSize l)). split; [done|].
    rewrite Z.rem_mod_nonneg by lia. apply Z.mod_pos_bound. lia.
  - exists 0%Z. split; [done | lia].
Qed.

Lemma applyAll_inRange env ops w :
  indexInRange (this w) → indexInRange (this (applyAll env ops w)).
Proof.
  revert w. induction ops as [|op ops IH]; intros w H; [done|].
  cbn. apply IH. eapply indexStep_inRange; [apply perform_indexStep | done].
Qed.

Lemma constructor_this options filterDir stackText w0 :
  (constructor options filterDir stackText w0).1 = Ok tt →
  let l := this (constructor options filterDir stackText w0).2 in
  index l = Int 0
  ∧ bufferSize l = default 1024%Z (opt_bufferSize options)
  ∧ isClosed l = false ∧ isFlushing l = false
  ∧ inmediate l = default true (opt_inmediate options)
  ∧ writeStream l = default Stdout (opt_writeStream options)
  ∧ fileStreams l = standardStreams
  ∧ slots (buffer l)
    = replicate (Z.to_nat (default 1024%Z (opt_bufferSize options))) None.
Proof.
  unfold constructor, newArray.
  destruct (_ && _); [|discriminate]. intros _. cbn. repeat split.
Qed.

(** C8, amended: for an instance built with a [bufferSize] of at least
    one, [0 ≤ index < bufferSize] holds after the constructor and after
    every sequence of [log], [info], [warn], [error], [debug], [flush] and
    [close] calls and timer rounds, the calls that throw included. *)
Theorem writeIndex_in_range env options filterDir stackText w0 ops :
  (1 ≤ default 1024 (opt_bufferSize options))%Z →
  (constructor options filterDir stackText w0).1 = Ok tt →
  indexInRange
    (this (applyAll env ops (constructor options filterDir stackText w0).2)).
Proof.
  intros Hsize Hbuilt. apply applyAll_inRange.
  destruct (constructor_this options filterDir stackText w0 Hbuilt)
    as (Hidx & Hbs & _).
  exists 0%Z. split; [done|]. rewrite Hbs. lia.
Qed.

(** C8, as stated, fails for [bufferSize: 0], a size the constructor
    accepts: the index is 0 from the start, which is not below 0, and the
    first buffered [log] makes it [NaN]. *)
Lemma writeIndex_out_of_range_in_empty_buffer :
  (constructor
     {| opt_bufferSize := Some 0%Z; opt_flushInterval := None;
        opt_writeStream := Some Stdout; opt_highResTimestamps := None;
        opt_inmediate := Some false |}
     "/app" sampleStack freshProcess).1 = Ok tt
  ∧ ¬ indexInRange (this (build 0 Stdout false))
  ∧ (info sampleEnv (VString "a") (build 0 Stdout false)).1 = Ok true
  ∧ index (this (applyAll sampleEnv [CallInfo (VString "a")] (build 0 Stdout false)))
    = NaN
  ∧ ¬ indexInRange
        (this (applyAll sampleEnv [CallInfo (VString "a")] (build 0 Stdout false))).
Proof.
  split; [reflexivity|]. split.
  { intros (z & Hz & Hr).
    change (bufferSize (this (build 0 Stdout false))) with 0%Z in Hr. lia. }
  split; [reflexivity|]. split; [reflexivity|].
  intros (z & Hz & _). discriminate Hz.
Qed.

Lemma writeIndex_in_range_witness :
  (1 ≤ 2)%Z
  ∧ indexInRange
      (this (applyAll sampleEnv
               [CallInfo (VString "a"); CallWarn (VString "w");
                CallLog "verbose" VNull; CallInfo (VString "b"); TimerRound;
                CallDebug (VString "c"); CallFlush; CallClose;
                CallError (VString "late")]
               (build 2 (UserStream 1) false))).
Proof.
  split; [lia|].
  apply (writeIndex_in_range sampleEnv
           {| opt_bufferSize := Some 2%Z; opt_flushInterval := None;
              opt_writeStream := Some (UserStream 1);
              opt_highResTimestamps := None; opt_inmediate := Some false |}
           "/app" sampleStack freshProcess).
  - cbn. lia.
  - reflexivity.
Defined.

(** ** The scan of flush *)

Lemma scan_empty count i m batch :
  scan count i (replicate m None) batch = (replicate m None, batch).
Proof.
  revert i. induction count as [|count IH]; intros i; [done|]. cbn.
  destruct (replicate m None !! i) as [[entry|]|] eqn:E; try apply IH.
  apply lookup_replicate in E as [E _]. discriminate E.
Qed.

Lemma replicate_cons_middle {A : Type} i (x : A) l :
  (replicate i x ++ x :: l = replicate (S i) x ++ l)%list.
Proof. induction i as [|i IH]; cbn; [done | by rewrite IH]. Qed.

Lemma scan_collect lines c i batch :
  Forall (λ s, s ≠ EmptyString) lines →
  scan (List.length lines + c) i
    (replicate i None ++ (Some <$> lines) ++ replicate c None)%list batch
  = (replicate (i + List.length lines + c) None, (batch ++ lines)%list).
Proof.
  revert i batch. induction lines as [|s lines IH]; intros i batch Hne.
  - cbn. rewrite <- replicate_add, scan_empty, app_nil_r.
    by rewrite Nat.add_0_r.
  - inversion_clear Hne as [|? ? Hs Hne']. cbn [List.length Nat.add scan fmap list_fmap].
    rewrite lookup_app_r by (rewrite length_replicate; lia).
    rewrite length_replicate, Nat.sub_diag. cbn [app lookup list_lookup].
    destruct (String.eqb_spec s EmptyString) as [E|_]; [by destruct Hs|].
    rewrite insert_app_r_alt by (rewrite length_replicate; lia).
    rewrite length_replicate, Nat.sub_diag. cbn [app insert list_insert].
    rewrite replicate_cons_middle.
    rewrite (IH (S i) (batch ++ [s])%list Hne').
    f_equal; [f_equal; lia | by rewrite <- app_assoc].
Qed.


Lemma stream_of level :
  level ∈ ["info"; "debug"] →
  getProperty standardStreams level = Own (fileOf level).
Proof.
  intros H. apply elem_of_cons in H as [->|H]; [done|].
  apply elem_of_cons in H as [->|H]; [done|]. by apply elem_of_nil in H.
Qed.

Lemma buffered_path l level :
  inmediate l = false → level ∈ ["info"; "debug"] →
  immediatePath l level = false.
Proof.
  intros Hm H. unfold immediatePath. rewrite Hm.
  apply elem_of_cons in H as [->|H]; [done|].
  apply elem_of_cons in H as [->|H]; [done|]. by apply elem_of_nil in H.
Qed.

(** ** One buffered call *)

Lemma slots_stored n k (lines : list string) (entry : string) :
  List.length lines = k → (k < n)%nat →
  <[k := Some entry]> ((Some <$> lines) ++ replicate (n - k) None)%list
  = ((Some <$> (lines ++ [entry])) ++ replicate (n - S k) None)%list.
Proof.
  intros Hlen Hk.
  rewrite insert_app_r_alt by (rewrite length_fmap; lia).
  rewrite length_fmap, Hlen, Nat.sub_diag.
  replace (n - k)%nat with (S (n - S k)) by lia. cbn.
  rewrite fmap_app, <- app_assoc. done.
Qed.

Lemma setAt_inside k entry a :
  (k < List.length (slots a))%nat →
  setAt (Int (Z.of_nat k)) entry a
  = {| slots := <[k := Some entry]> (slots a); others := others a |}.
Proof.
  intros H. unfold setAt.
  destruct (Z.leb_spec 0 (Z.of_nat k)) as [_|?]; [|lia].
  rewrite Nat2Z.id. by destruct (Nat.ltb_spec k (List.length (slots a))); [|lia].
Qed.

Lemma log_fills env n k lines w level message :
  Buffering n k lines w →
  buffered env (level, message) →
  (S k < n)%nat →
  let entry := consoleText env (highResTimestamps (this w)) (source (this w))
                 (clock w) level (text env message) in
  let chunk := fileText env (highResTimestamps (this w)) (source (this w))
                 (S (clock w)) level (text env message) ++ newline in
  ∃ w', log env level message w = (Ok true, w')
        ∧ Buffering n (S k) (lines ++ [entry]) w'
        ∧ trace w' = (trace w ++ [Write (fileOf level) chunk])%list
        ∧ clock w' = S (S (clock w))
        ∧ sameSetup w w'.
Proof.
  intros B [Hlevel Hfmt] Hroom entry chunk. cbn in Hlevel, Hfmt.
  destruct B as [Hopen Hidle Hmode Hsize Hidx Hslots Hlen Htruthy Hk Hfiles Hcons].
  pose proof (log_buffered env level message w (text env message) Hopen
                (buffered_path _ _ Hmode Hlevel) Hfmt) as E.
  cbn zeta in E. fold entry chunk in E.
  set (w1 := stored entry (later 2 w)) in E.
  assert (Hnext : index (this w1) = Int (Z.of_nat (S k))).
  { subst w1. cbn. rewrite Hidx, Hsize. cbn.
    destruct (Z.eqb_spec (Z.of_nat n) 0) as [E0|_]; [lia|].
    rewrite Z.rem_small by lia. f_equal. lia. }
  rewrite Hnext in E.
  replace (isZero (Int (Z.of_nat (S k)))) with false in E
    by (cbn; symmetry; apply Z.eqb_neq; lia).
  cbn [when ret snd] in E.
  assert (Hfs : fileStreams (this w1) = standardStreams) by (subst w1; done).
  rewrite Hfs, (stream_of level Hlevel) in E.
  exists (having [Write (fileOf level) chunk] w1). split; [exact E|].
  split; [|subst w1; done].
  subst w1. constructor; cbn -[setAt]; try done.
  - rewrite Hidx, setAt_inside.
    + cbn. rewrite Hslots. by apply slots_stored.
    + rewrite Hslots, length_app, length_fmap, length_replicate. lia.
  - rewrite length_app. cbn. lia.
  - apply Forall_app. split; [done|]. by constructor.
Qed.

Lemma log_wraps env n k lines w level message :
  Buffering n k lines w →
  buffered env (level, message) →
  S k = n →
  let entry := consoleText env (highResTimestamps (this w)) (source (this w))
                 (clock w) level (text env message) in
  let chunk := fileText env (highResTimestamps (this w)) (source (this w))
                 (S (clock w)) level (text env message) ++ newline in
  ∃ w', log env level message w = (Ok true, w')
        ∧ Buffering n 0 [] w'
        ∧ trace w'
          = (trace w
             ++ [Write (writeStream (this w))
                   (Js.join newline (lines ++ [entry]) ++ newline);
                 Write (fileOf level) chunk])%list
        ∧ clock w' = S (S (clock w))
        ∧ sameSetup w w'.
Proof.
  intros B [Hlevel Hfmt] Hwrap entry chunk. cbn in Hlevel, Hfmt.
  destruct B as [Hopen Hidle Hmode Hsize Hidx Hslots Hlen Htruthy Hk Hfiles Hcons].
  pose proof (log_buffered env level message w (text env message) Hopen
                (buffered_path _ _ Hmode Hlevel) Hfmt) as E.
  cbn zeta in E. fold entry chunk in E.
  set (w1 := stored entry (later 2 w)) in E.
  assert (Hnext : index (this w1) = Int 0).
  { subst w1. cbn. rewrite Hidx, Hsize. cbn.
    destruct (Z.eqb_spec (Z.of_nat n) 0) as [E0|_]; [lia|].
    replace (Z.of_nat k + 1)%Z with (Z.of_nat n) by lia.
    by rewrite Z.rem_same by lia. }
  rewrite Hnext in E. cbn [isZero Z.eqb when] in E.
  rewrite flush_open in E by (subst w1; done). cbn [snd] in E.
  rewrite flushed_fileStreams in E.
  assert (Hfs : fileStreams (this w1) = standardStreams) by (subst w1; done).
  rewrite Hfs, (stream_of level Hlevel) in E.
  assert (Hslots1 : slots (buffer (this w1))
                    = (replicate 0 None ++ (Some <$> (lines ++ [entry]))
                       ++ replicate 0 None)%list).
  { subst w1. cbn -[setAt]. rewrite Hidx, setAt_inside.
    - cbn. rewrite Hslots, (slots_stored n k) by done.
      by replace (n - S k)%nat with 0%nat by lia.
    - rewrite Hslots, length_app, length_fmap, length_replicate. lia. }
  assert (Hscan : scan (Z.to_nat (bufferSize (this w1))) 0 (slots (buffer (this w1))) []
                  = (replicate n None, (lines ++ [entry])%list)).
  { rewrite Hslots1.
    replace (Z.to_nat (bufferSize (this w1)))
      with (List.length (lines ++ [entry]) + 0)%nat.
    - rewrite scan_collect.
      + f_equal. f_equal. rewrite length_app. cbn. lia.
      + apply Forall_app. split; [done|]. by constructor.
    - subst w1. cbn. rewrite Hsize, Nat2Z.id, length_app. cbn. lia. }
  exists (having [Write (fileOf level) chunk] (flushed w1)).
  split; [exact E|].
  unfold flushed. rewrite Hscan.
  assert (Hbatch : bool_decide ((lines ++ [entry])%list = []) = false).
  { apply bool_decide_eq_false. by destruct lines. }
  rewrite Hbatch. subst w1. split; [|split; [|done]].
  - constructor; cbn; try done. by rewrite Nat.sub_0_r. lia.
  - cbn. by rewrite <- app_assoc.
Qed.

(** ** Sequences of buffered calls *)

Lemma sameSetup_refl w : sameSetup w w.
Proof. by repeat split. Qed.

Lemma sameSetup_trans w1 w2 w3 : sameSetup w1 w2 → sameSetup w2 w3 → sameSetup w1 w3.
Proof. intros (?&?&?) (?&?&?). repeat split; congruence. Qed.

Lemma logEach_app env a b w : logEach env (a ++ b) w = logEach env b (logEach env a w).
Proof. revert w. induction a as [|[l m] a IH]; intros w; cbn; [done | apply IH]. Qed.

Lemma consoleLines_app env hr src k a b :
  consoleLines env hr src k (a ++ b)
  = (consoleLines env hr src k a
     ++ consoleLines env hr src (2 * List.length a + k) b)%list.
Proof.
  revert k. induction a as [|[l m] a IH]; intros k; cbn; [done|].
  rewrite IH. do 3 f_equal. lia.
Qed.

Lemma logEach_fills env n entries :
  ∀ k lines w,
    Buffering n k lines w →
    Forall (buffered env) entries →
    (k + List.length entries < n)%nat →
    let w' := logEach env entries w in
    Buffering n (k + List.length entries)
      (lines ++ consoleLines env (highResTimestamps (this w)) (source (this w))
                  (clock w) entries) w'
    ∧ trace w'
      = (trace w ++ fileEvents env (highResTimestamps (this w)) (source (this w))
                      (clock w) entries)%list
    ∧ clock w' = (2 * List.length entries + clock w)%nat
    ∧ sameSetup w w'
    ∧ logResults env entries w = replicate (List.length entries) (Ok true).
Proof.
  induction entries as [|[level message] entries IH]; intros k lines w B Hall Hroom.
  - cbn. rewrite Nat.add_0_r, !app_nil_r. split; [exact B|]. by repeat split.
  - inversion_clear Hall as [|? ? Hb Hall']. cbn [List.length] in Hroom.
    destruct (log_fills env n k lines w level message B Hb ltac:(lia))
      as (w1 & E & B1 & Ht & Hc & Hs).
    cbn [logEach logResults consoleLines fileEvents List.length]. rewrite E. cbn [fst snd].
    destruct (IH (S k) _ w1 B1 Hall' ltac:(lia)) as (B2 & Ht2 & Hc2 & Hs2 & Hr2).
    destruct Hs as (Hsrc & Hhr & Hws).
    rewrite Hsrc, Hhr, Hc in B2, Ht2.
    split; [|split; [|split; [|split]]].
    + replace (k + S (List.length entries))%nat with (S k + List.length entries)%nat by lia.
      by rewrite <- app_assoc in B2.
    + rewrite Ht2, Ht, <- app_assoc. done.
    + rewrite Hc2, Hc. lia.
    + eapply sameSetup_trans; [|exact Hs2]. by repeat split.
    + by rewrite Hr2.
Qed.

Lemma written_fileEvents_console env hr src k entries s :
  (∀ f, s ≠ FileStream f) →
  written s (fileEvents env hr src k entries) = [].
Proof.
  intros Hs. revert k. induction entries as [|[l m] entries IH]; intros k; [done|].
  cbn. rewrite bool_decide_eq_false_2 by (intros E; by apply (Hs ("logs/" ++ l ++ ".log"))).
  apply IH.
Qed.

Lemma written_fileEvents_info env hr src k messages :
  written (fileOf "info")
    (fileEvents env hr src k ((λ m, ("info", m)) <$> messages))
  = fileChunks env hr src k ((λ m, ("info", m)) <$> messages).
Proof.
  revert k. induction messages as [|m messages IH]; intros k; [done|].
  cbn. rewrite bool_decide_eq_true_2 by done. f_equal. apply IH.
Qed.

Lemma info_buffered env messages :
  Forall (formats env) messages →
  Forall (buffered env) ((λ m, ("info", m)) <$> messages).
Proof.
  intros H. induction H as [|m messages Hm _ IH]; cbn; constructor; [|done].
  split; [apply list_elem_of_here | exact Hm].
Qed.

(** C4, amended: in buffered mode, starting from an empty buffer of
    [n ≥ 1] slots, with [n] buffered calls that follow each other and nothing
    in between (no [flush] call, and no round of the flush loop either), the
    first [n - 1] calls write nothing to the console sink and leave the index
    at [n - 1]; the [n]-th call returns [true], takes the index back to 0 and
    flushes at once: the console sink receives, in one write, the [n]
    console lines in call order, joined by newlines and ended by a newline,
    and every slot is empty afterwards. *)
Theorem wrap_triggers_flush env n w front level message :
  Buffering n 0 [] w →
  Forall (buffered env) front →
  buffered env (level, message) →
  S (List.length front) = n →
  let before := logEach env front w in
  let lines := consoleLines env (highResTimestamps (this w)) (source (this w))
                 (clock w) (front ++ [(level, message)]) in
  index (this before) = Int (Z.of_nat (n - 1))
  ∧ written (writeStream (this w)) (trace before)
    = written (writeStream (this w)) (trace w)
  ∧ ∃ after,
      log env level message before = (Ok true, after)
      ∧ index (this after) = Int 0
      ∧ slots (buffer (this after)) = replicate n None
      ∧ written (writeStream (this w)) (trace after)
        = (written (writeStream (this w)) (trace w)
           ++ [(Js.join newline lines ++ newline)%string])%list.
Proof.
  intros B Hfront Hlast Hn before lines.
  destruct (logEach_fills env n front 0 [] w B Hfront ltac:(cbn; lia))
    as (B1 & Ht & Hc & Hs & _).
  fold before in B1, Ht, Hc, Hs. cbn [Nat.add app] in B1.
  pose proof (buf_console _ _ _ _ B) as Hcons.
  split; [rewrite (buf_index _ _ _ _ B1); do 2 f_equal; lia|].
  split.
  { rewrite Ht, written_app, written_fileEvents_console by done.
    by rewrite app_nil_r. }
  destruct (log_wraps env n _ _ before level message B1 Hlast Hn)
    as (after & E & B2 & Ht2 & _ & _).
  destruct Hs as (Hsrc & Hhr & Hws).
  exists after. split; [exact E|].
  split; [exact (buf_index _ _ _ _ B2)|].
  split; [by rewrite (buf_slots _ _ _ _ B2), Nat.sub_0_r|].
  rewrite Ht2, Ht, Hws, Hsrc, Hhr, Hc. rewrite !written_app.
  rewrite written_fileEvents_console by done. cbn.
  rewrite bool_decide_eq_true_2 by done.
  rewrite bool_decide_eq_false_2
    by (intros E'; apply (Hcons ("logs/" ++ level ++ ".log")); by rewrite <- E').
  subst lines. rewrite consoleLines_app. cbn. by rewrite app_nil_r.
Qed.

(** C4, as stated, fails when a round of the flush loop comes between the
    calls. With [bufferSize: 2], the calls [info("a")] and [info("b")] log
    two buffered entries with no [flush] call between them; a round of the
    timer after the first one finds the index at 1, flushes and resets it.
    The second call then returns [true] and leaves the index at 1, not at 0,
    and triggers no flush: the sink has received the first line alone, in
    the write of the timer, and the second line is pending in slot 0. *)
Lemma wrap_not_triggered_after_timer_round :
  let w0 := build 2 (UserStream 1) false in
  let w1 := applyAll sampleEnv [CallInfo (VString "a"); TimerRound] w0 in
  let w2 := (info sampleEnv (VString "b") w1).2 in
  index (this w0) = Int 0
  ∧ index (this w1) = Int 0
  ∧ (info sampleEnv (VString "b") w1).1 = Ok true
  ∧ index (this w2) = Int 1
  ∧ slots (buffer (this w2))
    = [ Some ("[T2] " ++ esc "[32m" ++ "[INFO] HTTPRequest" ++ esc "[0m" ++ ": b");
        None ]
  ∧ written (UserStream 1) (trace w2)
    = [ "[T0] " ++ esc "[32m" ++ "[INFO] HTTPRequest" ++ esc "[0m" ++ ": a"
        ++ newline ].
Proof. cbv zeta. repeat split; vm_compute; reflexivity. Qed.

Lemma flush_Buffering n k lines w :
  Buffering n k lines w →
  ∃ w', flush w = (Ok tt, w')
        ∧ slots (buffer (this w')) = replicate n None
        ∧ index (this w') = Int 0
        ∧ trace w'
          = (trace w
             ++ (if bool_decide (lines = []) then []
                 else [Write (writeStream (this w))
                         (Js.join newline lines ++ newline)]))%list.
Proof.
  intros [Hopen Hidle Hmode Hsize Hidx Hslots Hlen Htruthy Hk Hfiles Hcons].
  exists (flushed w). split; [by apply flush_open|].
  assert (Hscan : scan (Z.to_nat (bufferSize (this w))) 0 (slots (buffer (this w))) []
                  = (replicate n None, lines)).
  { rewrite Hslots, Hsize, Nat2Z.id.
    replace n with (List.length lines + (n - k))%nat at 1 by lia.
    change ((Some <$> lines) ++ replicate (n - k) None)%list
      with (replicate 0 None ++ (Some <$> lines) ++ replicate (n - k) None)%list.
    rewrite scan_collect by done. cbn. f_equal. f_equal. lia. }
  unfold flushed. rewrite Hscan. by repeat split.
Qed.

(** C5: in buffered mode, starting from an empty buffer of [n] slots, let
    [N < n] messages be logged with [info] and nothing else happen. Every
    call returns [true]. After any [j] of the calls the [info] file has
    received the file lines of those [j] messages, in call order, whatever
    happens to the buffer later. The console sink has received nothing; the
    first [N] slots hold the console lines in call order. A [flush()] then
    empties every slot, sets the index to 0 and hands the console sink the
    [N] lines in call order as one chunk, joined by newlines and ended by a
    newline; with no message at all there is nothing to hand over and no
    write is made. The file is as it was before the flush. *)
Theorem buffered_ordering env n w messages :
  Buffering n 0 [] w →
  Forall (formats env) messages →
  (List.length messages < n)%nat →
  let entries := (λ m, ("info", m)) <$> messages in
  let sink := writeStream (this w) in
  let lines := consoleLines env (highResTimestamps (this w)) (source (this w))
                 (clock w) entries in
  let w1 := logEach env entries w in
  logResults env entries w = replicate (List.length messages) (Ok true)
  ∧ (∀ j, (j ≤ List.length messages)%nat →
       written (fileOf "info") (trace (logEach env (take j entries) w))
       = (written (fileOf "info") (trace w)
          ++ fileChunks env (highResTimestamps (this w)) (source (this w))
               (clock w) (take j entries))%list)
  ∧ written sink (trace w1) = written sink (trace w)
  ∧ slots (buffer (this w1))
    = ((Some <$> lines) ++ replicate (n - List.length messages) None)%list
  ∧ ∃ w2,
      flush w1 = (Ok tt, w2)
      ∧ slots (buffer (this w2)) = replicate n None
      ∧ index (this w2) = Int 0
      ∧ written sink (trace w2)
        = (written sink (trace w)
           ++ (if bool_decide (messages = []) then []
               else [(Js.join newline lines ++ newline)%string]))%list
      ∧ written (fileOf "info") (trace w2)
        = (written (fileOf "info") (trace w)
           ++ fileChunks env (highResTimestamps (this w)) (source (this w))
                (clock w) entries)%list.
Proof.
  intros B Hfmt Hroom entries sink lines w1.
  pose proof (buf_console _ _ _ _ B) as Hcons. fold sink in Hcons.
  assert (Hlen : List.length entries = List.length messages)
    by (subst entries; apply length_fmap).
  destruct (logEach_fills env n entries 0 [] w B (info_buffered env messages Hfmt)
              ltac:(cbn; lia)) as (B1 & Ht & Hc & Hs & Hr).
  fold w1 lines in B1, Ht, Hc, Hs. cbn [Nat.add app] in B1. rewrite Hlen in B1, Hr.
  split; [exact Hr|]. split.
  { intros j Hj. subst entries. rewrite <- fmap_take.
    assert (Hfmt' : Forall (formats env) (take j messages)) by by apply Forall_take.
    destruct (logEach_fills env n _ 0 [] w B (info_buffered env _ Hfmt')
                ltac:(cbn; rewrite length_fmap, length_take; lia)) as (_ & Ht' & _).
    by rewrite Ht', written_app, written_fileEvents_info. }
  assert (Hsink1 : written sink (trace w1) = written sink (trace w)).
  { rewrite Ht, written_app, written_fileEvents_console by done.
    by rewrite app_nil_r. }
  split; [exact Hsink1|].
  split; [exact (buf_slots _ _ _ _ B1)|].
  destruct (flush_Buffering n _ _ w1 B1) as (w2 & E & Hslots & Hidx & Ht2).
  destruct Hs as (_ & _ & Hws).
  exists w2. split; [exact E|]. split; [exact Hslots|]. split; [exact Hidx|].
  assert (Hempty : bool_decide (lines = []) = bool_decide (messages = [])).
  { subst lines entries. by destruct messages. }
  rewrite Ht2, Hws, Hempty, !written_app, Hsink1. fold sink. split.
  - f_equal. destruct (bool_decide (messages = [])); [done|].
    cbn. by rewrite bool_decide_eq_true_2.
  - rewrite Ht, written_app. subst entries. rewrite written_fileEvents_info.
    assert (written (fileOf "info")
              (if bool_decide (messages = []) then []
               else [Write sink (Js.join newline lines ++ newline)]) = []) as ->.
    { destruct (bool_decide (messages = [])); [done|]. cbn.
      rewrite bool_decide_eq_false_2; [done|]. intros E'. by apply (Hcons "logs/info.log"). }
    by rewrite app_nil_r.
Qed.

(** ** formatValue on cyclic values *)

Lemma mapM_Throw {A B : Type} (f : A → result B) (l : list A) x e :
  x ∈ l → f x = Throw e → ∃ e', mapM f l = Throw e'.
Proof.
  intros Hin Hx. induction l as [|a l IH]; [by apply elem_of_nil in Hin|].
  cbn. destruct (f a) as [b|e0] eqn:Ha; [|by exists e0].
  apply elem_of_cons in Hin as [->|Hin]; [congruence|].
  destruct (IH Hin) as [e' ->]. by exists e'.
Qed.

Lemma formatValue_Throw depth h v e :
  formatValue depth h v = Throw e → e = RangeError.
Proof.
  revert v e. induction depth as [|depth IH]; intros v e H; [by inversion H|].
  assert (Hmap : ∀ (A : Type) (l : list A) (f : A → result string) e,
            (∀ x e, f x = Throw e → e = RangeError) →
            mapM f l = Throw e → e = RangeError).
  { intros A l f. induction l as [|a l IHl]; intros e0 Hf Hm; [by inversion Hm|].
    cbn in Hm. destruct (f a) as [b|e1] eqn:Ha.
    - cbn in Hm. destruct (mapM f l) as [bs|e2] eqn:Hl; [by inversion Hm|].
      cbn in Hm. inversion Hm; subst. by apply IHl.
    - cbn in Hm. inversion Hm; subst. by apply (Hf a). }
  cbn in H. destruct v as [| | | | |a]; try by inversion H.
  destruct (h a) as [props|elems|entries|values].
  - destruct (JSON_stringify depth h (VObject a)) as [[?|]|?]; by inversion H.
  - destruct (JSON_stringify depth h (VObject a)) as [[?|]|?]; by inversion H.
  - unfold formatMap in H.
    destruct (mapM _ entries) as [es|e1] eqn:Hm; [by inversion H|].
    cbn in H. inversion H; subst. eapply Hmap; [|exact Hm].
    intros [k v] e0 Hkv. cbn in Hkv.
    destruct (formatValue depth h k) as [kt|e2] eqn:Hk;
      [|cbn in Hkv; inversion Hkv; subst; by apply (IH k)].
    cbn in Hkv. destruct (formatValue depth h v) as [vt|e3] eqn:Hv;
      [by inversion Hkv|].
    cbn in Hkv. inversion Hkv; subst. by apply (IH v).
  - unfold formatSet in H.
    destruct (mapM _ values) as [es|e1] eqn:Hm; [by inversion H|].
    cbn in H. inversion H; subst. eapply Hmap; [|exact Hm].
    intros v e0 Hv0. cbn in Hv0.
    destruct (formatValue depth h v) as [vt|e3] eqn:Hv; [by inversion Hv0|].
    cbn in Hv0. inversion Hv0; subst. by apply (IH v).
Qed.

(** A Map that holds itself as one of its values, or a Set that holds
    itself: no call stack is deep enough for [formatValue] to return. *)
Lemma formatValue_self_containing h a :
  (∃ entries k, h a = MapObj entries ∧ (k, VObject a) ∈ entries)
  ∨ (∃ values, h a = SetObj values ∧ VObject a ∈ values) →
  ∀ depth, formatValue depth h (VObject a) = Throw RangeError.
Proof.
  intros Hself depth.
  assert (H : ∃ e, formatValue depth h (VObject a) = Throw e).
  { induction depth as [|depth [e IH]]; [by exists RangeError|]. cbn.
    destruct Hself as [(entries & k & -> & Hin) | (values & -> & Hin)].
    - unfold formatMap.
      destruct (mapM_Throw
                  (λ kv : value * value,
                     formatValue depth h kv.1 ≫= λ k0,
                     formatValue depth h kv.2 ≫= λ v,
                     Ok (mapKey ++ k0 ++ reset ++ " => " ++ mapValue ++ v ++ reset))
                  entries (k, VObject a)
                  (match formatValue depth h k with Ok _ => e | Throw e' => e' end)
                  Hin) as [e' He'].
      + cbn. rewrite IH. by destruct (formatValue depth h k).
      + rewrite He'. by exists e'.
    - unfold formatSet.
      destruct (mapM_Throw
                  (λ v, formatValue depth h v ≫= λ t, Ok (setValue ++ t ++ reset))
                  values (VObject a) e Hin) as [e' He'].
      + cbn. by rewrite IH.
      + rewrite He'. by exists e'. }
  destruct H as [e H]. by rewrite H, (formatValue_Throw _ _ _ _ H).
Qed.

(** A plain object or an array that holds itself formats as the
    placeholder, whatever the depth left for [JSON.stringify]. *)
Lemma formatValue_cyclic_object depth :
  formatValue (S depth) cyclic (VObject 2) = Ok "[Circular]"
  ∧ formatValue (S depth) cyclic (VObject 3) = Ok "[Circular]".
Proof. destruct depth as [|[|depth]]; split; reflexivity. Qed.

(** C6: formatting is meant never to raise, cyclic Maps and Sets
    included. A Map that holds itself and a Set that holds itself make
    [formatValue] raise [RangeError] at every depth of the call stack, and
    the [info] call that logs such a Map raises it too. *)
Theorem formatValue_raises_on_cyclic_collections (depth : nat) :
  formatValue depth cyclic (VObject 0) = Throw RangeError
  ∧ formatValue depth cyclic (VObject 1) = Throw RangeError
  ∧ (info (cyclicEnv depth) (VObject 0) (build 4 Stdout true)).1 = Throw RangeError.
Proof.
  assert (H0 : formatValue depth cyclic (VObject 0) = Throw RangeError).
  { apply formatValue_self_containing. left.
    exists [(VString "self", VObject 0)], (VString "self").
    split; [done | apply list_elem_of_here]. }
  split; [exact H0|]. split.
  - apply formatValue_self_containing. right.
    exists [VObject 1]. split; [done | apply list_elem_of_here].
  - unfold info.
    by rewrite (log_format_Throw (cyclicEnv depth) "info" (VObject 0) _ RangeError).
Qed.

(** ** The console line *)

(** C9, amended: for each of the four severities the console line is
    [[timestamp] <color>[SEVERITY] sourceLabel<reset>: message]: the colour
    of the severity opens before the tag and stays on over the source
    label; the single reset of the prefix comes after the source label. *)
Theorem console_line_shape env w level color tag message t :
  (level, color, tag) ∈ severities →
  format env message = Ok t →
  formatMessage env level message true w
  = (Ok ("[" ++ stamp env (highResTimestamps (this w)) (clock w) ++ "] "
         ++ color ++ "[" ++ tag ++ "] " ++ source (this w) ++ reset ++ ": " ++ t),
     later 1 w).
Proof.
  intros Hin Ht. rewrite (formatMessage_Ok env level message true w t Ht).
  unfold severities in Hin.
  repeat (apply elem_of_cons in Hin as [Hin|Hin];
          [inversion Hin; subst; reflexivity|]).
  by apply elem_of_nil in Hin.
Qed.

Lemma console_line_shape_witness :
  ("warn", esc "[33m", "WARN") ∈ severities
  ∧ format sampleEnv (VString "disk full") = Ok "disk full"
  ∧ (formatMessage sampleEnv "warn" (VString "disk full") true
       (build 4 Stdout true)).1
    = Ok ("[T0] " ++ esc "[33m" ++ "[WARN] HTTPRequest" ++ esc "[0m"
          ++ ": disk full").
Proof.
  assert (Hin : ("warn", esc "[33m", "WARN") ∈ severities)
    by (unfold severities; apply list_elem_of_further, list_elem_of_here).
  split; [exact Hin|]. split; [reflexivity|].
  rewrite (console_line_shape sampleEnv (build 4 Stdout true) "warn"
             (esc "[33m") "WARN" (VString "disk full") "disk full" Hin eq_refl).
  reflexivity.
Defined.

(** C9, as stated, fails: the line of [info("a")] has no reset between
    the tag and the source label and one reset in all, where the stated
    shape has two. *)
Lemma console_line_has_one_reset :
  let line := "[T0] " ++ esc "[32m" ++ "[INFO] HTTPRequest" ++ esc "[0m" ++ ": a" in
  let stated := consoleTextTwoResets "T0" (esc "[32m") "info" "HTTPRequest" "a" in
  (formatMessage sampleEnv "info" (VString "a") true (build 4 Stdout true)).1
  = Ok line
  ∧ line ≠ stated
  ∧ occurrences reset line = 1
  ∧ occurrences reset stated = 2.
Proof. cbv zeta. split; [reflexivity|]. split; [|split; reflexivity]. discriminate. Qed.

(** ** The caller resolver *)

Import SourceClass.

Lemma split_nonempty sep s : Js.split sep s ≠ [].
Proof.
  destruct s as [|c s]; cbn; [done|].
  destruct (Ascii.eqb c sep); [done|]. by destruct (Js.split sep s).
Qed.

Lemma split_head sep s :
  hd EmptyString (Js.split sep s)
  = (fix upto (s : string) : string :=
       match s with
       | EmptyString => EmptyString
       | String c s' => if Ascii.eqb c sep then EmptyString else String c (upto s')
       end) s.
Proof.
  induction s as [|c s IH]; cbn; [done|].
  destruct (Ascii.eqb c sep); [done|].
  destruct (Js.split sep s) as [|piece pieces] eqn:E;
    [by destruct (split_nonempty sep s)|].
  cbn in *. by rewrite IH.
Qed.

(** The survivors: the parsed frames, the first one dropped, that lie in
    the project, outside its dependencies, and carry a name. *)
Lemma named_survivors filterDir stackText f :
  f ∈ named filterDir stackText
  ↔ f ∈ detections stackText ∧ isLocal filterDir f = true ∧ isNamed f = true.
Proof.
  unfold named, local. rewrite !list_elem_of_In, !filter_In. tauto.
Qed.

(** The head of the sorted frames is the first frame of the least line. *)
Lemma sort_head l chosen rest :
  sort l = chosen :: rest →
  ∃ before after,
    l = (before ++ chosen :: after)%list
    ∧ (∀ f, f ∈ before → (line chosen < line f)%Z)
    ∧ (∀ f, f ∈ after → (line chosen ≤ line f)%Z).
Proof.
  revert chosen rest. induction l as [|x l IH]; intros chosen rest H; [done|].
  cbn in H. destruct (sort l) as [|y ys] eqn:E.
  - assert (l = []) as -> .
    { destruct l as [|z l]; [done|]. cbn in E.
      destruct (sort l) as [|? ?]; cbn in E; [done|].
      by destruct (_ <=? _)%Z. }
    cbn in H. inversion H; subst. exists [], [].
    split; [done|]. split; intros f Hf; by apply elem_of_nil in Hf.
  - destruct (IH y ys eq_refl) as (before & after & -> & Hb & Ha).
    cbn in H. unfold compareLines in H.
    destruct (Z.leb_spec (line x - line y) 0) as [Hle|Hgt].
    + inversion H; subst. exists [], (before ++ y :: after)%list.
      split; [done|]. split; [intros f Hf; by apply elem_of_nil in Hf|].
      intros f Hf. apply elem_of_app in Hf as [Hf|Hf].
      * specialize (Hb f Hf). lia.
      * apply elem_of_cons in Hf as [->|Hf]; [lia|]. specialize (Ha f Hf). lia.
    + inversion H; subst. exists (x :: before), after.
      split; [done|]. split; [|done].
      intros f Hf. apply elem_of_cons in Hf as [->|Hf]; [lia | by apply Hb].
Qed.

Lemma sort_nil l : sort l = [] → l = [].
Proof.
  destruct l as [|x l]; [done|]. cbn.
  destruct (sort l) as [|y ys]; cbn; [done|]. by destruct (_ <=? _)%Z.
Qed.

(** The model of the sort is a sort: its result holds the same frames, in
    ascending order of line. *)
Lemma insertSorted_Permutation x l : insertSorted x l ≡ₚ x :: l.
Proof.
  induction l as [|y l IH]; cbn; [done|].
  destruct (_ <=? _)%Z; [done|]. rewrite IH. apply Permutation_swap.
Qed.

Lemma sort_Permutation l : sort l ≡ₚ l.
Proof.
  induction l as [|x l IH]; cbn; [done|].
  by rewrite insertSorted_Permutation, IH.
Qed.

Lemma sort_StronglySorted l :
  StronglySorted (λ a b, (line a ≤ line b)%Z) (sort l).
Proof.
  induction l as [|x l IH]; cbn; [constructor|].
  induction IH as [|y ys Hys IHys Hy]; cbn; [repeat constructor|].
  unfold compareLines. destruct (Z.leb_spec (line x - line y) 0) as [Hle|Hgt].
  - constructor; [by constructor|]. constructor; [lia|].
    eapply Forall_impl; [|exact Hy]. cbn. intros z Hz. lia.
  - constructor; [exact IHys|].
    rewrite insertSorted_Permutation. constructor; [lia | exact Hy].
Qed.

(** Where the only white space is the space character, as in the symbols
    the engine prints ([new X], [async f], [get x]), cutting at spaces and
    cutting at white space give the same tokens. *)
Lemma split_space_whiteSpace s :
  onlySpaces s = true → Js.split " " s = splitWhiteSpace s.
Proof.
  induction s as [|c s IH]; cbn; [done|].
  intros H. apply andb_prop in H as [Hc Hs]. rewrite (IH Hs).
  destruct (Ascii.eqb_spec c " ") as [->|Hne]; [done|].
  rewrite orb_false_r in Hc. apply negb_true_iff in Hc. by rewrite Hc.
Qed.

Example getCallerClass_sample : getCallerClass "/app" sampleStack = "HTTPRequest".
Proof. vm_compute. reflexivity. Qed.

Example className_samples :
  className "new HTTPRequest" = "HTTPRequest"
  ∧ className "Logger.getCallerClass" = "Logger"
  ∧ className "async Promise.all" = "Promise"
  ∧ className "main" = "main".
Proof. repeat split. Qed.

(** ** Instances the constructor builds *)

Lemma constructor_Buffering options filterDir stackText w0 n :
  opt_bufferSize options = Some (Z.of_nat n) →
  (1 ≤ n)%nat → (Z.of_nat n < 2 ^ 32)%Z →
  opt_inmediate options = Some false →
  (∀ f, default Stdout (opt_writeStream options) ≠ FileStream f) →
  (constructor options filterDir stackText w0).1 = Ok tt
  ∧ Buffering n 0 [] (constructor options filterDir stackText w0).2.
Proof.
  intros Hsize Hn Hmax Hmode Hsink.
  assert (Hbuilt : (constructor options filterDir stackText w0).1 = Ok tt).
  { unfold constructor, newArray. rewrite Hsize. cbn [default from_option id].
    destruct (Z.leb_spec 0 (Z.of_nat n)); [|lia].
    destruct (Z.ltb_spec (Z.of_nat n) (2 ^ 32)); [reflexivity | lia]. }
  split; [exact Hbuilt|].
  destruct (constructor_this options filterDir stackText w0 Hbuilt)
    as (Hidx & Hbs & Hopen & Hidle & Him & Hws & Hfs & Hslots).
  rewrite Hsize in Hbs, Hslots. rewrite Hmode in Him. cbn in Hbs, Hslots, Him.
  constructor; try done.
  - by rewrite Hslots, Nat2Z.id, Nat.sub_0_r.
  - by rewrite Hws.
Qed.


Lemma wrap_triggers_flush_witness :
  Buffering 2 0 [] (build 2 (UserStream 1) false)
  ∧ Forall (buffered sampleEnv) [("info", VString "a")]
  ∧ buffered sampleEnv ("info", VString "b")
  ∧ ∃ after,
      info sampleEnv (VString "b")
        (info sampleEnv (VString "a") (build 2 (UserStream 1) false)).2
      = (Ok true, after)
      ∧ index (this after) = Int 0
      ∧ slots (buffer (this after)) = [None; None]
      ∧ written (UserStream 1) (trace after)
        = [ "[T0] " ++ esc "[32m" ++ "[INFO] HTTPRequest" ++ esc "[0m" ++ ": a"
            ++ newline
            ++ "[T2] " ++ esc "[32m" ++ "[INFO] HTTPRequest" ++ esc "[0m" ++ ": b"
            ++ newline ].
Proof.
  assert (B : Buffering 2 0 [] (build 2 (UserStream 1) false)).
  { constructor; [vm_compute; reflexivity .. | constructor | lia
                 | vm_compute; reflexivity | discriminate]. }
  assert (Ha : Forall (buffered sampleEnv) [("info", VString "a")]).
  { constructor; [|constructor].
    split; [apply list_elem_of_here | vm_compute; reflexivity]. }
  assert (Hb : buffered sampleEnv ("info", VString "b")).
  { split; [apply list_elem_of_here | vm_compute; reflexivity]. }
  split; [exact B|]. split; [exact Ha|]. split; [exact Hb|].
  pose proof (wrap_triggers_flush sampleEnv 2 (build 2 (UserStream 1) false)
                [("info", VString "a")] "info" (VString "b") B Ha Hb eq_refl) as H.
  destruct H as (_ & _ & after & E & Hidx & Hslots & Hsink).
  exists after. vm_compute in E, Hsink. vm_compute.
  split; [exact E|]. split; [exact Hidx|]. split; [exact Hslots|]. exact Hsink.
Defined.

Lemma buffered_ordering_witness :
  Buffering 4 0 [] (build 4 (UserStream 1) false)
  ∧ Forall (formats sampleEnv) [VString "a"; VNull; VBigInt 7]
  ∧ (3 < 4)%nat
  ∧ written (fileOf "info")
      (trace (info sampleEnv (VBigInt 7)
                (info sampleEnv VNull
                   (info sampleEnv (VString "a")
                      (build 4 (UserStream 1) false)).2).2).2)
    = [ "[T1] [INFO] HTTPRequest: a" ++ newline;
        "[T3] [INFO] HTTPRequest: null" ++ newline;
        "[T5] [INFO] HTTPRequest: 7" ++ newline ]
  ∧ ∃ w2,
      flush (info sampleEnv (VBigInt 7)
               (info sampleEnv VNull
                  (info sampleEnv (VString "a")
                     (build 4 (UserStream 1) false)).2).2).2
      = (Ok tt, w2)
      ∧ slots (buffer (this w2)) = [None; None; None; None]
      ∧ index (this w2) = Int 0
      ∧ written (UserStream 1) (trace w2)
        = [ "[T0] " ++ esc "[32m" ++ "[INFO] HTTPRequest" ++ esc "[0m" ++ ": a"
            ++ newline
            ++ "[T2] " ++ esc "[32m" ++ "[INFO] HTTPRequest" ++ esc "[0m" ++ ": null"
            ++ newline
            ++ "[T4] " ++ esc "[32m" ++ "[INFO] HTTPRequest" ++ esc "[0m" ++ ": 7"
            ++ newline ].
Proof.
  assert (B : Buffering 4 0 [] (build 4 (UserStream 1) false)).
  { constructor; [vm_compute; reflexivity .. | constructor | lia
                 | vm_compute; reflexivity | discriminate]. }
  assert (Hf : Forall (formats sampleEnv) [VString "a"; VNull; VBigInt 7]).
  { repeat (constructor; [vm_compute; reflexivity|]). constructor. }
  assert (Hn : (3 < 4)%nat) by lia.
  split; [exact B|]. split; [exact Hf|]. split; [exact Hn|].
  pose proof (buffered_ordering sampleEnv 4 (build 4 (UserStream 1) false)
                [VString "a"; VNull; VBigInt 7] B Hf Hn) as H.
  destruct H as (_ & Hfile & _ & _ & w2 & E & Hslots & Hidx & Hsink & _).
  specialize (Hfile 3%nat (le_n 3)).
  vm_compute in Hfile, E, Hsink. vm_compute.
  split; [exact Hfile|].
  exists w2. split; [exact E|]. split; [exact Hslots|]. split; [exact Hidx|].
  exact Hsink.
Defined.

(** * Further properties of the code *)

(** ** flush, on any buffer *)

Lemma scan_beyond count i (l : list (option string)) batch :
  (List.length l ≤ i)%nat → scan count i l batch = (l, batch).
Proof.
  revert i. induction count as [|count IH]; intros i Hi; [done|]. cbn.
  rewrite (lookup_ge_None_2 l i) by done. apply IH. lia.
Qed.

Lemma scan_spec count (pre rest : list (option string)) batch :
  scan count (List.length pre) (pre ++ rest) batch
  = ((pre ++ (left <$> take count rest) ++ drop count rest)%list,
     (batch ++ omap taken (take count rest))%list).
Proof.
  revert pre rest batch. induction count as [|count IH]; intros pre rest batch.
  - cbn. rewrite drop_0. by rewrite app_nil_r.
  - destruct rest as [|slot rest].
    + rewrite scan_beyond by (rewrite length_app; cbn; lia).
      cbn. by rewrite !app_nil_r.
    + cbn [scan]. rewrite lookup_app_r by lia. rewrite Nat.sub_diag.
      cbn [lookup list_lookup take drop fmap list_fmap omap list_omap].
      assert (Hlen : S (List.length pre) = List.length (pre ++ [slot]))
        by (rewrite length_app; cbn; lia).
      destruct slot as [entry|]; cbn [taken left].
      * destruct (String.eqb entry EmptyString) eqn:E.
        -- rewrite Hlen, (cons_middle (Some entry) pre rest), app_assoc, IH.
           by rewrite <- !app_assoc.
        -- rewrite insert_app_r_alt by lia. rewrite Nat.sub_diag.
           cbn [insert list_insert].
           assert (Hlen' : S (List.length pre) = List.length (pre ++ [None]))
             by (rewrite length_app; cbn; lia).
           rewrite Hlen', (cons_middle None pre rest), app_assoc, IH.
           by rewrite <- !app_assoc.
      * rewrite Hlen, (cons_middle None pre rest), app_assoc, IH.
        by rewrite <- !app_assoc.
Qed.

Lemma taken_left slot : taken (left slot) = None.
Proof.
  destruct slot as [entry|]; [|done]. cbn.
  destruct (String.eqb entry EmptyString) eqn:E; [|done]. cbn. by rewrite E.
Qed.

Lemma left_left slot : left (left slot) = left slot.
Proof.
  destruct slot as [entry|]; [|done]. cbn.
  destruct (String.eqb entry EmptyString) eqn:E; [|done]. cbn. by rewrite E.
Qed.

Lemma omap_taken_left (l : list (option string)) : omap taken (left <$> l) = [].
Proof. induction l as [|s l IH]; cbn; [done|]. by rewrite taken_left. Qed.

Lemma fmap_left_left (l : list (option string)) : left <$> (left <$> l) = left <$> l.
Proof. induction l as [|s l IH]; cbn; [done|]. by rewrite left_left, IH. Qed.

(** X1: on an open instance that is not flushing, [flush] takes the truthy
    entries of the first [bufferSize] slots, in slot order, sets those slots to
    [null] and writes the entries to the console sink as one chunk, joined by
    newlines and ended by one; with no such entry it writes nothing. Slots
    from [bufferSize] on, and the properties of the array that are no
    slots, stay as they are; the index is 0 afterwards. *)
Theorem flush_takes_truthy_slots (w : World) :
  isClosed (this w) = false →
  isFlushing (this w) = false →
  let n := Z.to_nat (bufferSize (this w)) in
  let old := slots (buffer (this w)) in
  let batch := omap taken (take n old) in
  ∃ w',
    flush w = (Ok tt, w')
    ∧ trace w'
      = (trace w
         ++ (if bool_decide (batch = []) then []
             else [Write (writeStream (this w))
                     (Js.join newline batch ++ newline)]))%list
    ∧ slots (buffer (this w')) = ((left <$> take n old) ++ drop n old)%list
    ∧ others (buffer (this w')) = others (buffer (this w))
    ∧ index (this w') = Int 0
    ∧ isFlushing (this w') = false
    ∧ configOf (this w') = configOf (this w)
    ∧ clock w' = clock w.
Proof.
  intros Hopen Hidle n old batch. exists (flushed w).
  split; [by apply flush_open|].
  unfold flushed. fold n old.
  pose proof (scan_spec n [] old []) as Hscan. cbn in Hscan. rewrite Hscan.
  fold batch. by repeat split.
Qed.

Lemma flush_takes_truthy_slots_witness :
  isClosed (this pending) = false
  ∧ isFlushing (this pending) = false
  ∧ ∃ w',
      flush pending = (Ok tt, w')
      ∧ written (UserStream 1) (trace w')
        = [ "[T0] " ++ esc "[32m" ++ "[INFO] HTTPRequest" ++ esc "[0m" ++ ": a"
            ++ newline ]
      ∧ slots (buffer (this w')) = [None; None; None; None]
      ∧ index (this w') = Int 0.
Proof.
  split; [reflexivity|]. split; [reflexivity|].
  destruct (flush_takes_truthy_slots pending eq_refl eq_refl)
    as (w' & E & Ht & Hs & _ & Hi & _).
  exists w'. split; [exact E|].
  split; [rewrite Ht; vm_compute; reflexivity|].
  split; [rewrite Hs; vm_compute; reflexivity | exact Hi].
Defined.

(** X2: a second [flush] right after a [flush] changes nothing, in any
    state: it writes nothing and leaves the instance as the first one left
    it. *)
Theorem flush_twice (w : World) :
  flush (flush w).2 = (Ok tt, (flush w).2).
Proof.
  destruct (isFlushing (this w)) eqn:Hidle.
  { rewrite (flush_flushing w Hidle). by apply flush_flushing. }
  destruct (isClosed (this w)) eqn:Hopen.
  { rewrite (flush_closed w Hopen). by apply flush_closed. }
  rewrite (flush_open w Hidle Hopen). cbn [snd].
  assert (Hidle' : isFlushing (this (flushed w)) = false)
    by (unfold flushed; by destruct (scan _ _ _ _)).
  assert (Hopen' : isClosed (this (flushed w)) = false)
    by (unfold flushed; destruct (scan _ _ _ _); done).
  rewrite (flush_open _ Hidle' Hopen'). f_equal.
  unfold flushed at 1.
  assert (Hsize : bufferSize (this (flushed w)) = bufferSize (this w))
    by (unfold flushed; by destruct (scan _ _ _ _)).
  rewrite Hsize.
  set (n := Z.to_nat (bufferSize (this w))).
  assert (Hslots : slots (buffer (this (flushed w)))
                   = ((left <$> take n (slots (buffer (this w))))
                      ++ drop n (slots (buffer (this w))))%list).
  { unfold flushed. fold n.
    pose proof (scan_spec n [] (slots (buffer (this w))) []) as Hscan.
    cbn in Hscan. by rewrite Hscan. }
  pose proof (scan_spec n [] (slots (buffer (this (flushed w)))) []) as Hscan.
  cbn in Hscan. rewrite Hscan. clear Hscan.
  assert (Hcut : take n (slots (buffer (this (flushed w))))
                 = left <$> take n (slots (buffer (this w)))
                 ∧ drop n (slots (buffer (this (flushed w))))
                   = drop n (slots (buffer (this w)))).
  { rewrite Hslots.
    destruct (Nat.le_gt_cases n (List.length (slots (buffer (this w)))))
      as [Hn|Hn].
    - rewrite take_app_length', drop_app_length'
        by (rewrite length_fmap, length_take; lia). done.
    - rewrite (drop_ge _ n) by lia. rewrite !app_nil_r.
      rewrite take_ge, drop_ge by (rewrite length_fmap, length_take; lia).
      done. }
  destruct Hcut as [Htake Hdrop].
  assert (Hbatch : omap taken (take n (slots (buffer (this (flushed w))))) = [])
    by (rewrite Htake; apply omap_taken_left).
  assert (Hsame : ((left <$> take n (slots (buffer (this (flushed w)))))
                   ++ drop n (slots (buffer (this (flushed w)))))%list
                  = slots (buffer (this (flushed w))))
    by (rewrite Htake, Hdrop, fmap_left_left; by rewrite Hslots).
  rewrite Hbatch, Hsame. cbn.
  destruct (flushed w) as [l t c d] eqn:E. cbn in *.
  unfold around, having. cbn. rewrite app_nil_r. f_equal.
  assert (Hidx : index l = Int 0).
  { change l with (this {| this := l; trace := t; clock := c; logsDir := d |}).
    rewrite <- E. unfold flushed. by destruct (scan _ _ _ _). }
  destruct l as [? [? ?] ? ? ? ? ? ? ? ? ?]. cbn in *. by subst.
Qed.

(** ** What no operation changes *)

Lemma flushed_configOf w : configOf (this (flushed w)) = configOf (this w).
Proof. unfold flushed. by destruct (scan _ _ _ _). Qed.

Lemma flush_configOf w : configOf (this (flush w).2) = configOf (this w).
Proof.
  destruct (flush_cases w) as [-> | ->]; [done | apply flushed_configOf].
Qed.

Lemma log_configOf env level message w :
  configOf (this (log env level message w).2) = configOf (this w).
Proof.
  destruct (isClosed (this w)) eqn:Hopen.
  { by rewrite log_closed. }
  destruct (format env message) as [t|e] eqn:Hf.
  2: { by rewrite (log_format_Throw env level message w e). }
  destruct (immediatePath (this w) level) eqn:Hpath.
  { rewrite (log_immediate_writeTo env level message w t) by done.
    by rewrite writeTo_ret_this. }
  rewrite (log_buffered env level message w t) by done.
  rewrite writeTo_ret_this.
  set (w1 := stored _ (later 2 w)).
  destruct (when_flush_cases (isZero (index (this w1))) w1) as [-> | ->];
    cbn [snd]; [done | by rewrite flushed_configOf].
Qed.

Lemma perform_configOf env op w :
  configOf (this (perform env op w)) = configOf (this w).
Proof.
  destruct op; cbn [perform]; unfold info, warn, error, debug;
    try apply log_configOf.
  - destruct (bool_decide _); [apply log_configOf | done].
  - apply flush_configOf.
  - unfold flushLoop, bind, gets. destruct (_ && _); [apply flush_configOf | done].
  - destruct (isClosed (this w)) eqn:H.
    + by rewrite close_closed.
    + by rewrite close_open.
Qed.

Lemma applyAll_configOf env ops w :
  configOf (this (applyAll env ops w)) = configOf (this w).
Proof.
  revert w. induction ops as [|op ops IH]; intros w; [done|].
  change (applyAll env (op :: ops) w) with (applyAll env ops (perform env op w)).
  rewrite IH. apply perform_configOf.
Qed.

(** ** A closed instance *)

Lemma perform_closed env op w :
  isClosed (this w) = true → perform env op w = w.
Proof.
  intros H. destruct op; cbn [perform]; unfold info, warn, error, debug.
  - by rewrite log_closed.
  - by rewrite log_closed.
  - by rewrite log_closed.
  - by rewrite log_closed.
  - destruct (bool_decide _); [by rewrite log_closed | done].
  - by rewrite flush_closed.
  - unfold flushLoop, bind, gets. cbn. by rewrite H.
  - by rewrite close_closed.
Qed.

(** X3: [close()] is final. Whatever is called on an instance after its
    [close()], and however often, the world stays exactly as [close()] left
    it: a second [close()] ends no stream again, [flush()] and the timer
    write nothing, and the logging calls change neither the buffer nor any
    stream. *)
Theorem closed_is_final env (w : World) (ops : list operation) :
  applyAll env ops (close w).2 = (close w).2.
Proof.
  pose proof (close_isClosed w) as H. revert H.
  generalize (close w).2. intros c H.
  induction ops as [|op ops IH]; [done|].
  change (applyAll env (op :: ops) c) with (applyAll env ops (perform env op c)).
  by rewrite (perform_closed env op c H).
Qed.

(** ** What log returns *)

(** X4: [log] never returns [false]: a call either returns [true] or
    throws, so its result tells the caller nothing that the absence of an
    exception does not. *)
Theorem log_never_returns_false env level message w :
  (log env level message w).1 = Ok true
  ∨ ∃ e, (log env level message w).1 = Throw e.
Proof.
  destruct (isClosed (this w)) eqn:Hopen.
  { rewrite log_closed by done. right. by eexists. }
  destruct (format env message) as [t|e] eqn:Hf.
  2: { rewrite (log_format_Throw env level message w e) by done.
       right. by eexists. }
  destruct (immediatePath (this w) level) eqn:Hpath.
  { rewrite (log_immediate_writeTo env level message w t) by done.
    destruct (getProperty _ _); [by left|right; by eexists..]. }
  rewrite (log_buffered env level message w t) by done.
  destruct (getProperty _ _); [by left|right; by eexists..].
Qed.

(** ** A message that cannot be formatted *)



(** ** The file of a severity *)

Lemma stream_of_severity level :
  level ∈ ["info"; "warn"; "error"; "debug"] →
  getProperty standardStreams level = Own (fileOf level).
Proof.
  intros H. repeat (apply elem_of_cons in H as [->|H]; [done|]).
  by apply elem_of_nil in H.
Qed.

Lemma written_flushed_file w f :
  (∀ f, writeStream (this w) ≠ FileStream f) →
  written (FileStream f) (trace (flushed w)) = written (FileStream f) (trace w).
Proof.
  intros Hsink. unfold flushed. destruct (scan _ _ _ _) as [slots' batch].
  unfold around, having. cbn [trace].
  rewrite written_app. destruct (bool_decide (batch = [])); cbn.
  - by rewrite app_nil_r.
  - rewrite bool_decide_eq_false_2 by apply Hsink. by rewrite app_nil_r.
Qed.

Lemma flushed_clock w : clock (flushed w) = clock w.
Proof. unfold flushed. by destruct (scan _ _ _ _). Qed.

(** X6: file output is never buffered. On an open instance, in either
    mode, a [log] call with one of the four severities and a message that
    formats returns [true] and has appended exactly one chunk to the file of
    that severity, the file line stamped at the second of the two clock
    readings of the call, and nothing to any other file. *)
Theorem one_file_line_per_call env w level message :
  isClosed (this w) = false →
  fileStreams (this w) = standardStreams →
  (∀ f, writeStream (this w) ≠ FileStream f) →
  level ∈ ["info"; "warn"; "error"; "debug"] →
  formats env message →
  let w' := (log env level message w).2 in
  (log env level message w).1 = Ok true
  ∧ written (fileOf level) (trace w')
    = (written (fileOf level) (trace w)
       ++ [(fileText env (highResTimestamps (this w)) (source (this w))
              (S (clock w)) level (text env message) ++ newline)%string])%list
  ∧ (∀ f, FileStream f ≠ fileOf level →
       written (FileStream f) (trace w') = written (FileStream f) (trace w))
  ∧ clock w' = S (S (clock w)).
Proof.
  intros Hopen Hfiles Hsink Hlevel Hfmt w'.
  pose proof (stream_of_severity level Hlevel) as Hfs.
  destruct (immediatePath (this w) level) eqn:Hpath.
  - subst w'.
    rewrite (log_immediate env level message w (text env message) (fileOf level))
      by (try done; by rewrite Hfiles).
    cbn [fst snd having later trace clock]. split; [done|].
    rewrite !written_app. cbn.
    rewrite (bool_decide_eq_false_2 (Stdout = fileOf level)) by done.
    rewrite (bool_decide_eq_true_2 (fileOf level = fileOf level)) by done.
    split; [done|]. split; [|done].
    intros f Hf. rewrite written_app. cbn.
    rewrite (bool_decide_eq_false_2 (Stdout = FileStream f)) by done.
    rewrite (bool_decide_eq_false_2 (fileOf level = FileStream f)) by done.
    by rewrite app_nil_r.
  - pose proof (log_buffered env level message w (text env message)
                  Hopen Hpath Hfmt) as E. cbn zeta in E. subst w'.
    set (w1 := stored _ (later 2 w)) in E.
    set (w2 := (when (isZero (index (this w1))) flush w1).2) in E.
    assert (H2 : fileStreams (this w2) = standardStreams
                 ∧ (∀ f, written (FileStream f) (trace w2)
                         = written (FileStream f) (trace w))
                 ∧ clock w2 = S (S (clock w))).
    { subst w2.
      destruct (when_flush_cases (isZero (index (this w1))) w1) as [-> | ->];
        cbn [snd].
      - subst w1. by repeat split.
      - rewrite flushed_fileStreams, flushed_clock. split; [by subst w1|].
        split; [|by subst w1]. intros f.
        rewrite written_flushed_file by (subst w1; exact Hsink). by subst w1. }
    destruct H2 as (Hfiles2 & Hfile2 & Hclock2).
    rewrite Hfiles2, Hfs in E. rewrite E. cbn [fst snd].
    unfold bind, writeTo, emit, ret. cbn [fst snd trace clock].
    split; [done|]. rewrite !written_app. unfold fileOf at 1 3.
    rewrite Hfile2. cbn.
    rewrite (bool_decide_eq_true_2 (fileOf level = fileOf level)) by done.
    split; [done|]. split; [|done].
    intros f Hf. rewrite written_app, Hfile2. cbn.
    rewrite (bool_decide_eq_false_2 (fileOf level = FileStream f)) by done.
    by rewrite app_nil_r.
Qed.

Lemma one_file_line_per_call_witness :
  isClosed (this afterInfo) = false
  ∧ fileStreams (this afterInfo) = standardStreams
  ∧ (∀ f, writeStream (this afterInfo) ≠ FileStream f)
  ∧ "info" ∈ ["info"; "warn"; "error"; "debug"]
  ∧ formats sampleEnv (VString "b")
  ∧ written (FileStream "logs/info.log")
      (trace (log sampleEnv "info" (VString "b") afterInfo).2)
    = [ "[T1] [INFO] HTTPRequest: a" ++ newline;
        "[T3] [INFO] HTTPRequest: b" ++ newline ]
  ∧ written (FileStream "logs/warn.log")
      (trace (log sampleEnv "info" (VString "b") afterInfo).2) = [].
Proof.
  assert (Hsink : ∀ f, writeStream (this afterInfo) ≠ FileStream f)
    by (intros f; discriminate).
  assert (Hlevel : "info" ∈ ["info"; "warn"; "error"; "debug"])
    by apply list_elem_of_here.
  assert (Hfmt : formats sampleEnv (VString "b")) by (vm_compute; reflexivity).
  split; [reflexivity|]. split; [reflexivity|]. split; [exact Hsink|].
  split; [exact Hlevel|]. split; [exact Hfmt|].
  destruct (one_file_line_per_call sampleEnv afterInfo "info" (VString "b")
              eq_refl eq_refl Hsink Hlevel Hfmt) as (_ & Hfile & Hother & _).
  split.
  - vm_compute in Hfile. vm_compute. exact Hfile.
  - assert (Hne : FileStream "logs/warn.log" ≠ fileOf "info") by discriminate.
    specialize (Hother "logs/warn.log" Hne).
    vm_compute in Hother. vm_compute. exact Hother.
Defined.

(** ** warn and error in buffered mode *)

(** X7: [warn] and [error] go past the buffer. In buffered mode, with
    lines pending, such a call returns [true], writes its console line to the
    standard output and its file line to its file at once, and leaves the
    buffer and the index alone: the lines logged before it are still pending
    and reach the console sink only with the next flush, after the line of
    the later call. *)
Theorem warn_and_error_overtake env n k lines w level message :
  Buffering n k lines w →
  level ∈ ["warn"; "error"] →
  formats env message →
  ∃ w1 w2,
    log env level message w = (Ok true, w1)
    ∧ this w1 = this w
    ∧ Buffering n k lines w1
    ∧ trace w1
      = (trace w
         ++ [Write Stdout
               (consoleText env (highResTimestamps (this w)) (source (this w))
                  (clock w) level (text env message) ++ newline);
             Write (fileOf level)
               (fileText env (highResTimestamps (this w)) (source (this w))
                  (S (clock w)) level (text env message) ++ newline)])%list
    ∧ flush w1 = (Ok tt, w2)
    ∧ trace w2
      = (trace w1
         ++ (if bool_decide (lines = []) then []
             else [Write (writeStream (this w))
                     (Js.join newline lines ++ newline)]))%list.
Proof.
  intros B Hlevel Hfmt.
  assert (Hpath : immediatePath (this w) level = true).
  { unfold immediatePath.
    apply elem_of_cons in Hlevel as [->|Hlevel]; [by rewrite orb_true_r|].
    apply elem_of_cons in Hlevel as [->|Hlevel]; [by rewrite orb_true_r|].
    by apply elem_of_nil in Hlevel. }
  assert (Hfs : getProperty (fileStreams (this w)) level = Own (fileOf level)).
  { rewrite (buf_files _ _ _ _ B). apply stream_of_severity.
    apply elem_of_cons in Hlevel as [->|Hlevel]; [in_list|].
    apply elem_of_cons in Hlevel as [->|Hlevel]; [in_list|].
    by apply elem_of_nil in Hlevel. }
  pose proof (log_immediate env level message w (text env message) (fileOf level)
                (buf_open _ _ _ _ B) Hpath Hfmt Hfs) as E.
  set (w1 := having _ (later 2 w)) in E.
  assert (B1 : Buffering n k lines w1) by (destruct B; by constructor).
  destruct (flush_Buffering n k lines w1 B1) as (w2 & E2 & _ & _ & Ht2).
  exists w1, w2. split; [exact E|]. split; [done|]. split; [exact B1|].
  split; [done|]. split; [exact E2 | exact Ht2].
Qed.

Lemma warn_and_error_overtake_witness :
  Buffering 2 1 [consoleText sampleEnv false "HTTPRequest" 0 "info" "a"] afterInfo
  ∧ "warn" ∈ ["warn"; "error"]
  ∧ formats sampleEnv (VString "w")
  ∧ ∃ w1 w2,
      warn sampleEnv (VString "w") afterInfo = (Ok true, w1)
      ∧ flush w1 = (Ok tt, w2)
      ∧ written Stdout (trace w2)
        = [ "[T2] " ++ esc "[33m" ++ "[WARN] HTTPRequest" ++ esc "[0m" ++ ": w"
            ++ newline ]
      ∧ written (UserStream 1) (trace w1) = []
      ∧ written (UserStream 1) (trace w2)
        = [ "[T0] " ++ esc "[32m" ++ "[INFO] HTTPRequest" ++ esc "[0m" ++ ": a"
            ++ newline ].
Proof.
  assert (B : Buffering 2 1 [consoleText sampleEnv false "HTTPRequest" 0 "info" "a"]
                afterInfo).
  { constructor; [vm_compute; reflexivity .. | | lia | vm_compute; reflexivity
                 | discriminate].
    constructor; [discriminate | constructor]. }
  assert (Hlevel : "warn" ∈ ["warn"; "error"]) by apply list_elem_of_here.
  assert (Hfmt : formats sampleEnv (VString "w")) by (vm_compute; reflexivity).
  split; [exact B|]. split; [exact Hlevel|]. split; [exact Hfmt|].
  destruct (warn_and_error_overtake sampleEnv 2 1 _ afterInfo "warn" (VString "w")
              B Hlevel Hfmt) as (w1 & w2 & E1 & _ & _ & Ht1 & E2 & Ht2).
  exists w1, w2. split; [exact E1|]. split; [exact E2|].
  rewrite Ht2, Ht1. vm_compute. repeat split.
Defined.

(** ** What formatValue raises, and when it returns *)

(** X8: on values that are data (undefined, null, booleans, strings,
    BigInts, plain objects and arrays of such values, and Maps and Sets of
    them), with room on the stack for one call, [formatValue] throws only on
    a Map or a Set, and only the [RangeError] of an exhausted stack: on such
    values every failure of [JSON.stringify] (a cycle, a BigInt, an
    exhausted stack) is caught and becomes the placeholder. *)
Theorem formatValue_raises_only_on_collections depth h v e :
  formatValue (S depth) h v = Throw e →
  e = RangeError
  ∧ ∃ a, v = VObject a
         ∧ ((∃ entries, h a = MapObj entries) ∨ (∃ values, h a = SetObj values)).
Proof.
  intros H. split; [by eapply formatValue_Throw|].
  cbn in H. destruct v as [| | | | |a]; try by inversion H.
  exists a. split; [done|].
  destruct (h a) as [props|elems|entries|values] eqn:E.
  - destruct (JSON_stringify depth h (VObject a)) as [[?|]|?]; by inversion H.
  - destruct (JSON_stringify depth h (VObject a)) as [[?|]|?]; by inversion H.
  - left. by exists entries.
  - right. by exists values.
Qed.

Lemma formatValue_raises_only_on_collections_witness :
  formatValue 3 cyclic (VObject 0) = Throw RangeError
  ∧ ∃ a, VObject 0 = VObject a
         ∧ ((∃ entries, cyclic a = MapObj entries)
            ∨ (∃ values, cyclic a = SetObj values)).
Proof.
  assert (H : formatValue 3 cyclic (VObject 0) = Throw RangeError)
    by (vm_compute; reflexivity).
  split; [exact H|].
  exact (proj2 (formatValue_raises_only_on_collections 2 cyclic (VObject 0)
                  RangeError H)).
Defined.

Lemma mapM_Ok {A B : Type} (f : A → result B) (l : list A) :
  Forall (λ x, ∃ y, f x = Ok y) l → ∃ ys, mapM f l = Ok ys.
Proof.
  induction 1 as [|x l [y Hy] _ [ys IH]]; [by exists []|].
  exists (y :: ys). cbn. rewrite Hy. cbn. by rewrite IH.
Qed.

(** X9: on values that are data (undefined, null, booleans, strings,
    BigInts, plain objects and arrays of such values, and Maps and Sets of
    them), [formatValue] returns a string whenever the Maps and Sets of the
    value nest finitely and the call stack is deeper than the nesting;
    whatever the plain objects and arrays inside hold, cycles included. *)
Theorem formatValue_returns_on_finite_nesting h r v depth :
  nests h r v = true →
  (r < depth)%nat →
  ∃ t, formatValue depth h v = Ok t.
Proof.
  revert r v. induction depth as [|depth IH]; intros r v Hn Hr; [lia|].
  destruct v as [| | | | |a]; try by eexists.
  assert (Hn' : match h a with
                | MapObj entries =>
                    match r with
                    | O => false
                    | S r' => forallb (λ kv, nests h r' kv.1 && nests h r' kv.2) entries
                    end
                | SetObj values =>
                    match r with
                    | O => false
                    | S r' => forallb (nests h r') values
                    end
                | _ => true
                end = true) by (by destruct r).
  clear Hn. rename Hn' into Hn.
  cbn. destruct (h a) as [props|elems|entries|values].
  - destruct (JSON_stringify depth h (VObject a)) as [[?|]|?]; by eexists.
  - destruct (JSON_stringify depth h (VObject a)) as [[?|]|?]; by eexists.
  - destruct r as [|r]; [done|]. unfold formatMap.
    destruct (mapM_Ok
                (λ kv : value * value,
                   formatValue depth h kv.1 ≫= λ k,
                   formatValue depth h kv.2 ≫= λ v,
                   Ok (mapKey ++ k ++ reset ++ " => " ++ mapValue ++ v ++ reset))
                entries) as [es Hes].
    + apply Forall_forall. intros [k v] Hin.
      rewrite forallb_forall in Hn. specialize (Hn (k, v) Hin).
      apply andb_prop in Hn as [Hk Hv]. cbn in Hk, Hv.
      destruct (IH r k Hk ltac:(lia)) as [kt Hkt].
      destruct (IH r v Hv ltac:(lia)) as [vt Hvt].
      cbn. rewrite Hkt. cbn. rewrite Hvt. by eexists.
    + rewrite Hes. by eexists.
  - destruct r as [|r]; [done|]. unfold formatSet.
    destruct (mapM_Ok
                (λ v, formatValue depth h v ≫= λ t, Ok (setValue ++ t ++ reset))
                values) as [es Hes].
    + apply Forall_forall. intros v Hin.
      rewrite forallb_forall in Hn. specialize (Hn v Hin).
      destruct (IH r v Hn ltac:(lia)) as [vt Hvt].
      cbn. rewrite Hvt. by eexists.
    + rewrite Hes. by eexists.
Qed.

Lemma formatValue_returns_on_finite_nesting_witness :
  nests nestedHeap 2 (VObject 0) = true
  ∧ (2 < 3)%nat
  ∧ formatValue 3 nestedHeap (VObject 0)
    = Ok ("Map(2) { " ++ mapKey ++ "tags" ++ reset ++ " => " ++ mapValue
          ++ "Set(2) { " ++ setValue ++ "x" ++ reset ++ ", "
          ++ setValue ++ "7" ++ reset ++ " }" ++ reset ++ ", "
          ++ mapKey ++ "self" ++ reset ++ " => " ++ mapValue
          ++ "[Circular]" ++ reset ++ " }").
Proof.
  assert (Hn : nests nestedHeap 2 (VObject 0) = true) by reflexivity.
  assert (Hr : (2 < 3)%nat) by lia.
  split; [exact Hn|]. split; [exact Hr|].
  destruct (formatValue_returns_on_finite_nesting nestedHeap 2 (VObject 0) 3 Hn Hr)
    as [t Ht].
  rewrite Ht. vm_compute in Ht. vm_compute. symmetry. exact Ht.
Defined.

(** ** The buffer stays in order *)












(** ** Every buffered line reaches the console sink once *)

Lemma string_app_nil_r (s : string) : s ++ EmptyString = s.
Proof.
  induction s as [|c s IH]; [done|].
  change (String c (s ++ EmptyString) = String c s). by rewrite IH.
Qed.

Lemma string_app_assoc (a b c : string) : (a ++ b) ++ c = a ++ (b ++ c).
Proof.
  induction a as [|x a IH]; [done|].
  change (String x ((a ++ b) ++ c) = String x (a ++ (b ++ c))). by rewrite IH.
Qed.

Lemma join_nil_cons (x : string) (l : list string) :
  Js.join EmptyString (x :: l) = x ++ Js.join EmptyString l.
Proof. destruct l; [symmetry; apply string_app_nil_r | done]. Qed.

Lemma join_nil_app (a b : list string) :
  Js.join EmptyString (a ++ b) = Js.join EmptyString a ++ Js.join EmptyString b.
Proof.
  induction a as [|x a IH]; [done|].
  change ((x :: a) ++ b)%list with (x :: (a ++ b)%list).
  by rewrite !join_nil_cons, IH, string_app_assoc.
Qed.

Lemma linesText_app a b : linesText (a ++ b) = linesText a ++ linesText b.
Proof. unfold linesText. by rewrite fmap_app, join_nil_app. Qed.

Lemma join_newline batch :
  batch ≠ [] → Js.join newline batch ++ newline = linesText batch.
Proof.
  intros Hne. induction batch as [|x batch IH]; [done|].
  unfold linesText. rewrite fmap_cons, join_nil_cons.
  destruct batch as [|y batch].
  { change (x ++ newline = (x ++ newline) ++ EmptyString).
    by rewrite string_app_nil_r. }
  change (Js.join newline (x :: y :: batch))
    with (x ++ newline ++ Js.join newline (y :: batch)).
  rewrite !string_app_assoc. f_equal. f_equal.
  rewrite IH by done. done.
Qed.

Lemma received_app s t1 t2 :
  received s (t1 ++ t2) = received s t1 ++ received s t2.
Proof. unfold received. by rewrite written_app, join_nil_app. Qed.

Lemma received_own_write s chunk : received s [Write s chunk] = chunk.
Proof. unfold received. cbn. by rewrite bool_decide_eq_true_2. Qed.

Lemma flush_Buffering_all n k lines w :
  Buffering n k lines w →
  Buffering n 0 [] (flush w).2
  ∧ trace (flush w).2
    = (trace w
       ++ (if bool_decide (lines = []) then []
           else [Write (writeStream (this w))
                   (Js.join newline lines ++ newline)]))%list
  ∧ clock (flush w).2 = clock w
  ∧ sameSetup w (flush w).2.
Proof.
  intros B. pose proof B as [Hopen Hidle Hmode Hsize Hidx Hslots Hlen Htruthy Hk Hfiles Hcons].
  rewrite flush_open by done. cbn [snd].
  assert (Hscan : scan (Z.to_nat (bufferSize (this w))) 0 (slots (buffer (this w))) []
                  = (replicate n None, lines)).
  { rewrite Hslots, Hsize, Nat2Z.id.
    replace n with (List.length lines + (n - k))%nat at 1 by lia.
    change ((Some <$> lines) ++ replicate (n - k) None)%list
      with (replicate 0 None ++ (Some <$> lines) ++ replicate (n - k) None)%list.
    rewrite scan_collect by done. cbn. f_equal. f_equal. lia. }
  unfold flushed. rewrite Hscan. split; [|by repeat split].
  constructor; cbn; try done; [by rewrite Nat.sub_0_r | lia].
Qed.

Lemma received_file_write sink level chunk t :
  (∀ f, sink ≠ FileStream f) →
  received sink (t ++ [Write (fileOf level) chunk]) = received sink t.
Proof.
  intros Hsink. rewrite received_app. unfold received at 2. cbn.
  rewrite bool_decide_eq_false_2
    by (intros E; by apply (Hsink ("logs/" ++ level ++ ".log"))).
  cbn. apply string_app_nil_r.
Qed.

Lemma buffered_calls_conserve env n ops :
  ∀ k lines w,
    Buffering n k lines w →
    Forall (bufferedCall env) ops →
    ∃ k' pending,
      Buffering n k' pending (applyAll env ops w)
      ∧ received (writeStream (this w)) (trace (applyAll env ops w))
        ++ linesText pending
        = received (writeStream (this w)) (trace w)
          ++ linesText (lines
                        ++ callLines env (highResTimestamps (this w))
                             (source (this w)) (clock w) ops)
      ∧ sameSetup w (applyAll env ops w).
Proof.
  induction ops as [|op ops IH]; intros k lines w B Hall.
  { exists k, lines. cbn. rewrite app_nil_r. split; [done|]. split; [done|].
    apply sameSetup_refl. }
  inversion_clear Hall as [|? ? Hop Hops].
  change (applyAll env (op :: ops) w) with (applyAll env ops (perform env op w)).
  pose proof (buf_console _ _ _ _ B) as Hsink.
  assert (Hlog : ∀ level message,
            buffered env (level, message) →
            perform env op w = (log env level message w).2 →
            callLines env (highResTimestamps (this w)) (source (this w))
              (clock w) (op :: ops)
            = consoleText env (highResTimestamps (this w)) (source (this w))
                (clock w) level (text env message)
              :: callLines env (highResTimestamps (this w)) (source (this w))
                   (S (S (clock w))) ops →
            ∃ k' pending,
              Buffering n k' pending (applyAll env ops (perform env op w))
              ∧ received (writeStream (this w))
                  (trace (applyAll env ops (perform env op w)))
                ++ linesText pending
                = received (writeStream (this w)) (trace w)
                  ++ linesText (lines
                                ++ callLines env (highResTimestamps (this w))
                                     (source (this w)) (clock w) (op :: ops))
              ∧ sameSetup w (applyAll env ops (perform env op w))).
  { intros level message Hb Hperf Hlines. rewrite Hperf, Hlines.
    set (entry := consoleText env (highResTimestamps (this w)) (source (this w))
                    (clock w) level (text env message)).
    destruct (Nat.eq_dec (S k) n) as [Hwrap|Hroom].
    - destruct (log_wraps env n k lines w level message B Hb Hwrap)
        as (w1 & E & B1 & Ht & Hc & Hs).
      rewrite E. cbn [snd].
      destruct (IH 0%nat [] w1 B1 Hops) as (k' & pending & B' & Hrec & Hs').
      destruct Hs as (Hsrc & Hhr & Hws).
      rewrite Hws, Hsrc, Hhr, Hc in Hrec.
      exists k', pending. split; [exact B'|].
      split; [|eapply sameSetup_trans; [|exact Hs']; by repeat split].
      rewrite Hrec, Ht. fold entry.
      change (trace w ++ [Write (writeStream (this w))
                            (Js.join newline (lines ++ [entry]) ++ newline);
                          Write (fileOf level)
                            (fileText env (highResTimestamps (this w))
                               (source (this w)) (S (clock w)) level
                               (text env message) ++ newline)])%list
        with (trace w ++ ([Write (writeStream (this w))
                            (Js.join newline (lines ++ [entry]) ++ newline)]
                          ++ [Write (fileOf level)
                                (fileText env (highResTimestamps (this w))
                                   (source (this w)) (S (clock w)) level
                                   (text env message) ++ newline)]))%list.
      rewrite app_assoc, received_file_write by done.
      rewrite received_app, received_own_write.
      rewrite join_newline by (by destruct lines).
      cbn [app]. rewrite !string_app_assoc. f_equal.
      rewrite <- linesText_app. f_equal. by rewrite <- app_assoc.
    - assert (Hlt : (S k < n)%nat)
        by (pose proof (buf_room n k lines w B); lia).
      destruct (log_fills env n k lines w level message B Hb Hlt)
        as (w1 & E & B1 & Ht & Hc & Hs).
      rewrite E. cbn [snd].
      destruct (IH (S k) _ w1 B1 Hops) as (k' & pending & B' & Hrec & Hs').
      destruct Hs as (Hsrc & Hhr & Hws).
      rewrite Hws, Hsrc, Hhr, Hc in Hrec.
      exists k', pending. split; [exact B'|].
      split; [|eapply sameSetup_trans; [|exact Hs']; by repeat split].
      rewrite Hrec, Ht, received_file_write by done.
      fold entry. f_equal. f_equal. by rewrite <- app_assoc. }
  assert (Hflush : perform env op w = (flush w).2 →
            callLines env (highResTimestamps (this w)) (source (this w))
              (clock w) (op :: ops)
            = callLines env (highResTimestamps (this w)) (source (this w))
                (clock w) ops →
            ∃ k' pending,
              Buffering n k' pending (applyAll env ops (perform env op w))
              ∧ received (writeStream (this w))
                  (trace (applyAll env ops (perform env op w)))
                ++ linesText pending
                = received (writeStream (this w)) (trace w)
                  ++ linesText (lines
                                ++ callLines env (highResTimestamps (this w))
                                     (source (this w)) (clock w) (op :: ops))
              ∧ sameSetup w (applyAll env ops (perform env op w))).
  { intros Hperf Hlines. rewrite Hperf, Hlines.
    destruct (flush_Buffering_all n k lines w B) as (B1 & Ht & Hc & Hs).
    destruct (IH 0%nat [] (flush w).2 B1 Hops) as (k' & pending & B' & Hrec & Hs').
    pose proof Hs as (Hsrc & Hhr & Hws).
    rewrite Hws, Hsrc, Hhr, Hc in Hrec.
    exists k', pending. split; [exact B'|].
    split; [|eapply sameSetup_trans; [exact Hs | exact Hs']].
    rewrite Hrec, Ht, received_app. cbn [app].
    rewrite linesText_app, <- string_app_assoc. f_equal. f_equal.
    destruct lines as [|l lines].
    - cbn. done.
    - rewrite bool_decide_eq_false_2 by done.
      rewrite received_own_write. by rewrite join_newline. }
  destruct op as [level message|message| | | | | |]; cbn in Hop; try done.
  - by apply (Hlog level message).
  - apply (Hlog "info" message); [|done|done].
    split; [apply list_elem_of_here | exact Hop].
  - by apply Hflush.
  - destruct k as [|k].
    + assert (Hnoop : perform env TimerRound w = w).
      { cbn [perform]. unfold flushLoop, bind, gets. cbn.
        rewrite (buf_index _ _ _ _ B). cbn. by rewrite andb_false_r. }
      rewrite Hnoop. cbn [callLines]. exact (IH 0%nat lines w B Hops).
    + apply Hflush; [|done].
      cbn [perform]. unfold flushLoop, bind, gets. cbn -[flush Z.of_nat].
      rewrite (buf_index _ _ _ _ B), (buf_open _ _ _ _ B), (buf_idle _ _ _ _ B).
      replace (isPositive (Int (Z.of_nat (S k)))) with true
        by (symmetry; apply Z.ltb_lt; lia).
      done.
Qed.

(** X11: in buffered mode no console line is lost, doubled or reordered
    while the instance is open. Starting from an empty buffer, after any
    sequence of buffered [log] and [info] calls, [flush] calls and timer
    rounds, the text the console sink has received, followed by the lines
    still pending, is the text of the console lines of all the calls, in call
    order, each ended by a newline; a [flush] at the end delivers what is
    pending, so that the sink has then received exactly that text. *)
Theorem console_lines_conserved env n w ops :
  Buffering n 0 [] w →
  Forall (bufferedCall env) ops →
  let sink := writeStream (this w) in
  let all := callLines env (highResTimestamps (this w)) (source (this w))
               (clock w) ops in
  let w' := applyAll env ops w in
  (∃ k pending,
     Buffering n k pending w'
     ∧ received sink (trace w') ++ linesText pending
       = received sink (trace w) ++ linesText all)
  ∧ received sink (trace (flush w').2) = received sink (trace w) ++ linesText all.
Proof.
  intros B Hops sink all w'.
  destruct (buffered_calls_conserve env n ops 0%nat [] w B Hops)
    as (k & pending & B' & Hrec & Hs).
  fold w' sink in B', Hrec, Hs. cbn [app] in Hrec. fold all in Hrec.
  split; [by exists k, pending|].
  destruct (flush_Buffering_all n k pending w' B') as (_ & Ht & _ & _).
  destruct Hs as (_ & _ & Hws). fold sink in Hws.
  rewrite Ht, Hws, received_app, <- Hrec. f_equal.
  destruct pending as [|l pending]; [done|].
  rewrite bool_decide_eq_false_2 by done.
  by rewrite received_own_write, join_newline.
Qed.

Lemma console_lines_conserved_witness :
  Buffering 2 0 [] (build 2 (UserStream 1) false)
  ∧ Forall (bufferedCall sampleEnv)
      [CallInfo (VString "a"); TimerRound; CallInfo (VString "b");
       CallInfo (VString "c"); CallLog "debug" (VString "d")]
  ∧ received (UserStream 1)
      (trace (applyAll sampleEnv
                [CallInfo (VString "a"); TimerRound; CallInfo (VString "b");
                 CallInfo (VString "c"); CallLog "debug" (VString "d")]
                (build 2 (UserStream 1) false)))
    = "[T0] " ++ esc "[32m" ++ "[INFO] HTTPRequest" ++ esc "[0m" ++ ": a" ++ newline
      ++ "[T2] " ++ esc "[32m" ++ "[INFO] HTTPRequest" ++ esc "[0m" ++ ": b" ++ newline
      ++ "[T4] " ++ esc "[32m" ++ "[INFO] HTTPRequest" ++ esc "[0m" ++ ": c" ++ newline
  ∧ received (UserStream 1)
      (trace (flush
                (applyAll sampleEnv
                   [CallInfo (VString "a"); TimerRound; CallInfo (VString "b");
                    CallInfo (VString "c"); CallLog "debug" (VString "d")]
                   (build 2 (UserStream 1) false))).2)
    = "[T0] " ++ esc "[32m" ++ "[INFO] HTTPRequest" ++ esc "[0m" ++ ": a" ++ newline
      ++ "[T2] " ++ esc "[32m" ++ "[INFO] HTTPRequest" ++ esc "[0m" ++ ": b" ++ newline
      ++ "[T4] " ++ esc "[32m" ++ "[INFO] HTTPRequest" ++ esc "[0m" ++ ": c" ++ newline
      ++ "[T6] " ++ esc "[34m" ++ "[DEBUG] HTTPRequest" ++ esc "[0m" ++ ": d" ++ newline.
Proof.
  assert (B : Buffering 2 0 [] (build 2 (UserStream 1) false)).
  { constructor; [vm_compute; reflexivity .. | constructor | lia
                 | vm_compute; reflexivity | discriminate]. }
  assert (Hops : Forall (bufferedCall sampleEnv)
            [CallInfo (VString "a"); TimerRound; CallInfo (VString "b");
             CallInfo (VString "c"); CallLog "debug" (VString "d")]).
  { constructor; [vm_compute; reflexivity|].
    constructor; [exact I|].
    constructor; [vm_compute; reflexivity|].
    constructor; [vm_compute; reflexivity|].
    constructor; [|constructor].
    split; [apply list_elem_of_further, list_elem_of_here | vm_compute; reflexivity]. }
  split; [exact B|]. split; [exact Hops|].
  destruct (console_lines_conserved sampleEnv 2 _ _ B Hops) as [_ Hall].
  split; [vm_compute; reflexivity|].
  vm_compute in Hall. vm_compute. exact Hall.
Defined.

(** ** What the operations add to the trace *)

Lemma flush_trace w :
  let batch := omap taken (take (Z.to_nat (bufferSize (this w)))
                             (slots (buffer (this w)))) in
  trace (flush w).2 = trace w
  ∨ (batch ≠ []
     ∧ isClosed (this w) = false
     ∧ trace (flush w).2
       = (trace w ++ [Write (writeStream (this w))
                        (Js.join newline batch ++ newline)])%list).
Proof.
  intros batch.
  destruct (isFlushing (this w)) eqn:Hidle;
    [left; by rewrite flush_flushing|].
  destruct (isClosed (this w)) eqn:Hopen; [left; by rewrite flush_closed|].
  rewrite flush_open by done. cbn [snd]. unfold flushed.
  pose proof (scan_spec (Z.to_nat (bufferSize (this w))) []
                (slots (buffer (this w))) []) as Hscan.
  cbn [List.length app] in Hscan. rewrite Hscan. fold batch. cbn [trace around having].
  destruct (bool_decide (batch = [])) eqn:Hb.
  - left. by rewrite app_nil_r.
  - right. apply bool_decide_eq_false in Hb. done.
Qed.

Lemma flush_isClosed w : isClosed (this (flush w).2) = isClosed (this w).
Proof.
  destruct (flush_cases w) as [-> | ->]; [done|].
  unfold flushed. by destruct (scan _ _ _ _).
Qed.

Lemma log_trace env level message w :
  ∃ es, trace (log env level message w).2 = (trace w ++ es)%list
        ∧ Forall (logEvent (this w) level) es.
Proof.
  destruct (isClosed (this w)) eqn:Hopen.
  { exists []. rewrite log_closed by done. by rewrite app_nil_r. }
  destruct (format env message) as [t|e] eqn:Hf.
  2: { exists []. rewrite (log_format_Throw env level message w e) by done.
       cbn. by rewrite app_nil_r. }
  destruct (immediatePath (this w) level) eqn:Hpath.
  { rewrite (log_immediate_writeTo env level message w t) by done.
    set (line := (consoleText env _ _ _ level t ++ newline)%string).
    set (chunk := (fileText env _ _ _ level t ++ newline)%string).
    assert (Hout : logEvent (this w) level (Write Stdout line))
      by (exists Stdout, line; split; [done | by left]).
    destruct (getProperty (fileStreams (this w)) level) as [s| |] eqn:Hp.
    - exists [Write Stdout line; Write s chunk]. cbn.
      rewrite <- app_assoc. split; [done|].
      constructor; [done|]. constructor; [|done].
      exists s, chunk. split; [done|]. right. left. by exists level.
    - exists [Write Stdout line]. cbn. split; [done|]. by constructor.
    - exists [Write Stdout line]. cbn. split; [done|]. by constructor. }
  rewrite (log_buffered env level message w t) by done.
  set (entry := consoleText env _ _ _ level t).
  set (chunk := (fileText env _ _ _ level t ++ newline)%string).
  set (w1 := stored entry (later 2 w)).
  set (w2 := (when (isZero (index (this w1))) flush w1).2).
  assert (H2 : fileStreams (this w2) = fileStreams (this w)
               ∧ ∃ es, trace w2 = (trace w ++ es)%list
                       ∧ Forall (logEvent (this w) level) es).
  { subst w2. destruct (isZero (index (this w1))) eqn:Hz; cbn [when].
    - rewrite flush_fileStreams. split; [by subst w1|].
      destruct (flush_trace w1) as [-> | (_ & _ & ->)].
      + exists []. subst w1. cbn. by rewrite app_nil_r.
      + eexists. split; [subst w1; reflexivity|].
        constructor; [|done]. eexists _, _. split; [reflexivity|].
        right. right. subst w1. cbn in Hz |- *. done.
    - split; [by subst w1|]. exists []. subst w1. cbn. by rewrite app_nil_r. }
  destruct H2 as (Hfs & es & Ht & Hes). rewrite Hfs.
  destruct (getProperty (fileStreams (this w)) level) as [s| |] eqn:Hp.
  - exists (es ++ [Write s chunk])%list. cbn. rewrite Ht, <- app_assoc.
    split; [done|]. apply Forall_app. split; [done|]. constructor; [|done].
    exists s, chunk. split; [done|]. right. left. by exists level.
  - exists es. cbn. done.
  - exists es. cbn. done.
Qed.

Lemma log_isClosed env level message w :
  isClosed (this (log env level message w).2) = isClosed (this w).
Proof.
  destruct (isClosed (this w)) eqn:Hopen.
  { by rewrite log_closed. }
  destruct (format env message) as [t|e] eqn:Hf.
  2: { by rewrite (log_format_Throw env level message w e). }
  destruct (immediatePath (this w) level) eqn:Hpath.
  { rewrite (log_immediate_writeTo env level message w t) by done.
    by rewrite writeTo_ret_this. }
  rewrite (log_buffered env level message w t) by done.
  rewrite writeTo_ret_this.
  set (w1 := stored _ (later 2 w)).
  destruct (isZero (index (this w1))); cbn [when];
    [rewrite flush_isClosed|]; by subst w1.
Qed.

Lemma owned_stream_is_file key s :
  getProperty standardStreams key = Own s → ∃ f, s = FileStream f.
Proof.
  unfold getProperty, standardStreams. cbn [assoc].
  repeat (destruct (String.eqb _ key);
          [intros H; inversion H; by eexists|]).
  by destruct (bool_decide _).
Qed.

(** The writes a stream other than the standard output and the files
    receives from a [log] call are those of a flush the call triggers. *)
Lemma log_written_sink env level message w :
  fileStreams (this w) = standardStreams →
  writeStream (this w) ≠ Stdout →
  (∀ f, writeStream (this w) ≠ FileStream f) →
  immediatePath (this w) level = true
  ∨ isZero (succMod (index (this w)) (bufferSize (this w))) = false →
  written (writeStream (this w)) (trace (log env level message w).2)
  = written (writeStream (this w)) (trace w).
Proof.
  intros Hfiles Hout Hfile Hquiet.
  destruct (log_trace env level message w) as (es & -> & Hes).
  rewrite written_app.
  assert (written (writeStream (this w)) es = []) as ->; [|by rewrite app_nil_r].
  induction Hes as [|e es (s & chunk & -> & Hs) _ IH]; [done|].
  cbn. rewrite bool_decide_eq_false_2; [exact IH|].
  intros ->. destruct Hs as [Hs | [(key & Hkey) | (_ & Hp & Hz)]].
  - done.
  - rewrite Hfiles in Hkey. apply owned_stream_is_file in Hkey as [f Hf].
    by apply (Hfile f).
  - destruct Hquiet as [Hq|Hq]; congruence.
Qed.

(** ** The console sink in immediate mode and with an empty buffer *)

Lemma written_ends_only s es :
  Forall (λ e, ∃ s', e = End s') es → written s es = [].
Proof. induction 1 as [|e es [s' ->] _ IH]; [done|]. exact IH. Qed.

Lemma written_closing_nil s w : written s (closing w) = [].
Proof.
  apply written_ends_only. unfold closing. apply Forall_app. split.
  - destruct (bool_decide _); [done|]. constructor; [by eexists|done].
  - induction (fileStreams (this w)) as [|kv l IH]; [done|].
    constructor; [by eexists|exact IH].
Qed.

Lemma left_untaken (l : list (option string)) :
  omap taken l = [] → left <$> l = l.
Proof.
  induction l as [|slot l IH]; [done|]. cbn.
  destruct slot as [entry|]; cbn.
  - destruct (String.eqb entry EmptyString); [|done].
    intros H. by rewrite IH.
  - intros H. by rewrite IH.
Qed.

Lemma flushed_nothing_pending w :
  omap taken (take (Z.to_nat (bufferSize (this w))) (slots (buffer (this w)))) = [] →
  buffer (this (flushed w)) = buffer (this w)
  ∧ trace (flushed w) = trace w.
Proof.
  intros Hnone. unfold flushed.
  pose proof (scan_spec (Z.to_nat (bufferSize (this w))) []
                (slots (buffer (this w))) []) as Hscan.
  cbn [List.length app] in Hscan. rewrite Hscan, Hnone.
  rewrite (left_untaken _ Hnone), take_drop. cbn.
  split; [by destruct (buffer (this w))|by rewrite app_nil_r].
Qed.


Lemma log_immediate_this env level message w :
  inmediate (this w) = true → this (log env level message w).2 = this w.
Proof.
  intros Hmode.
  destruct (isClosed (this w)) eqn:Hopen; [by rewrite log_closed|].
  destruct (format env message) as [t|e] eqn:Hf.
  2: { by rewrite (log_format_Throw env level message w e). }
  rewrite (log_immediate_writeTo env level message w t);
    [|done|unfold immediatePath; by rewrite Hmode|done].
  by rewrite writeTo_ret_this.
Qed.

Lemma flush_nothing_pending w :
  nothingPending w →
  nothingPending (flush w).2
  ∧ buffer (this (flush w).2) = buffer (this w)
  ∧ trace (flush w).2 = trace w.
Proof.
  intros (Hidle & Hindex & Hnone).
  destruct (isClosed (this w)) eqn:Hopen.
  { rewrite flush_closed by done. by repeat split. }
  rewrite flush_open by done. cbn [snd].
  destruct (flushed_nothing_pending w Hnone) as [Hb Ht].
  split; [|by split].
  unfold nothingPending. rewrite Hb.
  assert (Hsize : bufferSize (this (flushed w)) = bufferSize (this w))
    by (unfold flushed; by destruct (scan _ _ _ _)).
  rewrite Hsize. repeat split; [| |done];
    unfold flushed; by destruct (scan _ _ _ _).
Qed.

Lemma perform_immediate env op w :
  inmediate (this w) = true →
  nothingPending w →
  nothingPending (perform env op w)
  ∧ buffer (this (perform env op w)) = buffer (this w)
  ∧ (fileStreams (this w) = standardStreams →
     writeStream (this w) ≠ Stdout →
     (∀ f, writeStream (this w) ≠ FileStream f) →
     written (writeStream (this w)) (trace (perform env op w))
     = written (writeStream (this w)) (trace w)).
Proof.
  intros Hmode Hnone.
  assert (Hlog : ∀ level message,
    nothingPending (log env level message w).2
    ∧ buffer (this (log env level message w).2) = buffer (this w)
    ∧ (fileStreams (this w) = standardStreams →
       writeStream (this w) ≠ Stdout →
       (∀ f, writeStream (this w) ≠ FileStream f) →
       written (writeStream (this w)) (trace (log env level message w).2)
       = written (writeStream (this w)) (trace w))).
  { intros level message.
    pose proof (log_immediate_this env level message w Hmode) as Hthis.
    unfold nothingPending. rewrite Hthis. split; [exact Hnone|].
    split; [done|]. intros Hfiles Hout Hfile.
    apply log_written_sink; [done..|].
    left. unfold immediatePath. by rewrite Hmode. }
  assert (Hflush :
    nothingPending (flush w).2
    ∧ buffer (this (flush w).2) = buffer (this w)
    ∧ (fileStreams (this w) = standardStreams →
       writeStream (this w) ≠ Stdout →
       (∀ f, writeStream (this w) ≠ FileStream f) →
       written (writeStream (this w)) (trace (flush w).2)
       = written (writeStream (this w)) (trace w))).
  { destruct (flush_nothing_pending w Hnone) as (H1 & H2 & H3).
    rewrite H3. split; [exact H1|]. split; [exact H2|]. done. }
  destruct op; cbn [perform]; unfold info, warn, error, debug;
    try apply Hlog.
  - destruct (bool_decide _); [apply Hlog|]. by split.
  - exact Hflush.
  - unfold flushLoop, bind, gets.
    destruct (_ && _); [exact Hflush|]. by split.
  - destruct (isClosed (this w)) eqn:Hopen.
    + rewrite close_closed by done. by split.
    + rewrite close_open by done. cbn [snd].
      split; [exact Hnone|]. split; [done|]. intros _ _ _. cbn [trace].
      rewrite written_app, written_closing_nil. by rewrite app_nil_r.
Qed.

(** X12: in immediate mode the buffer is never used. On an instance built
    with [inmediate] true, whose buffer holds nothing to flush, no sequence
    of calls and timer rounds changes the buffer or moves the index from 0;
    and a console sink of the instance's own, other than the standard output,
    never receives a write. *)
Theorem immediate_mode_never_buffers (env : Env) (ops : list operation)
    (w : World) :
  inmediate (this w) = true →
  nothingPending w →
  let w' := applyAll env ops w in
  buffer (this w') = buffer (this w)
  ∧ index (this w') = Int 0
  ∧ (fileStreams (this w) = standardStreams →
     writeStream (this w) ≠ Stdout →
     (∀ f, writeStream (this w) ≠ FileStream f) →
     written (writeStream (this w)) (trace w')
     = written (writeStream (this w)) (trace w)).
Proof.
  revert w. induction ops as [|op ops IH]; intros w Hmode Hnone.
  { cbn. destruct Hnone as (_ & Hindex & _). by repeat split. }
  change (applyAll env (op :: ops) w)
    with (applyAll env ops (perform env op w)).
  destruct (perform_immediate env op w Hmode Hnone) as (Hnone' & Hb & Hw).
  pose proof (perform_configOf env op w) as Hc.
  unfold configOf in Hc. injection Hc as _ _ _ Hsink _ Hmode' Hfiles.
  destruct (IH (perform env op w)) as (Hb' & Hi' & Hw');
    [congruence|done|].
  cbn zeta. split; [congruence|]. split; [done|].
  intros Hfs Hout Hfile.
  rewrite <- Hsink, Hw' by (rewrite ?Hsink; congruence).
  rewrite Hsink. by apply Hw.
Qed.

Lemma immediate_mode_never_buffers_witness :
  let w := build 4 (UserStream 1) true in
  let w' := applyAll sampleEnv
              [CallInfo (VString "a"); CallFlush; TimerRound;
               CallWarn (VString "b"); CallClose] w in
  buffer (this w') = buffer (this w)
  ∧ index (this w') = Int 0
  ∧ written (UserStream 1) (trace w') = [].
Proof.
  assert (Hmode : inmediate (this (build 4 (UserStream 1) true)) = true)
    by (vm_compute; reflexivity).
  assert (Hnone : nothingPending (build 4 (UserStream 1) true))
    by (repeat split; vm_compute; reflexivity).
  pose proof (immediate_mode_never_buffers sampleEnv
                [CallInfo (VString "a"); CallFlush; TimerRound;
                 CallWarn (VString "b"); CallClose]
                (build 4 (UserStream 1) true) Hmode Hnone) as (Hb & Hi & Hw).
  split; [exact Hb|]. split; [exact Hi|].
  assert (Hfs : fileStreams (this (build 4 (UserStream 1) true)) = standardStreams)
    by (vm_compute; reflexivity).
  assert (Hsink : writeStream (this (build 4 (UserStream 1) true)) = UserStream 1)
    by (vm_compute; reflexivity).
  rewrite Hsink in Hw.
  rewrite Hw; [vm_compute; reflexivity|exact Hfs|discriminate|discriminate].
Defined.

(** X13: with [bufferSize] 0 the console sink never receives anything. No
    sequence of calls and timer rounds writes to a console sink of the
    instance's own, whatever the mode: in buffered mode the entries of
    [info] and [debug] are stored and never written. *)
Theorem zero_buffer_never_reaches_sink (env : Env) (ops : list operation)
    (w : World) :
  bufferSize (this w) = 0%Z →
  fileStreams (this w) = standardStreams →
  writeStream (this w) ≠ Stdout →
  (∀ f, writeStream (this w) ≠ FileStream f) →
  written (writeStream (this w)) (trace (applyAll env ops w))
  = written (writeStream (this w)) (trace w).
Proof.
  revert w. induction ops as [|op ops IH]; intros w Hsize Hfs Hout Hfile; [done|].
  change (applyAll env (op :: ops) w)
    with (applyAll env ops (perform env op w)).
  pose proof (perform_configOf env op w) as Hc.
  unfold configOf in Hc. injection Hc as _ Hsize' _ Hsink _ _ Hfiles.
  rewrite <- Hsink, IH by (rewrite ?Hsink; congruence).
  rewrite Hsink. clear IH Hsize' Hsink Hfiles.
  assert (Hlog : ∀ level message,
    written (writeStream (this w)) (trace (log env level message w).2)
    = written (writeStream (this w)) (trace w)).
  { intros level message. apply log_written_sink; [done..|].
    right. rewrite Hsize. by destruct (index (this w)). }
  assert (Hflush : trace (flush w).2 = trace w).
  { destruct (flush_trace w) as [H | (Hbatch & _)]; [done|].
    rewrite Hsize in Hbatch. by destruct Hbatch. }
  destruct op; cbn [perform]; unfold info, warn, error, debug;
    try apply Hlog.
  - destruct (bool_decide _); [apply Hlog|done].
  - by rewrite Hflush.
  - unfold flushLoop, bind, gets.
    destruct (_ && _); [exact (f_equal _ Hflush)|done].
  - destruct (isClosed (this w)) eqn:Hopen.
    + by rewrite close_closed.
    + rewrite close_open by done. cbn [snd trace].
      rewrite written_app, written_closing_nil. by rewrite app_nil_r.
Qed.

Lemma zero_buffer_never_reaches_sink_witness :
  written (UserStream 1)
    (trace (applyAll sampleEnv
              [CallInfo (VString "a"); CallInfo (VString "b"); CallFlush;
               TimerRound; CallClose]
              (build 0 (UserStream 1) false)))
  = [].
Proof.
  assert (Hsink : writeStream (this (build 0 (UserStream 1) false)) = UserStream 1)
    by (vm_compute; reflexivity).
  pose proof (zero_buffer_never_reaches_sink sampleEnv
                [CallInfo (VString "a"); CallInfo (VString "b"); CallFlush;
                 TimerRound; CallClose]
                (build 0 (UserStream 1) false)) as H.
  rewrite Hsink in H.
  rewrite H; [vm_compute; reflexivity|vm_compute; reflexivity
             |vm_compute; reflexivity|discriminate|discriminate].
Defined.

(** ** When streams are ended *)

Lemma ended_app t1 t2 : ended (t1 ++ t2)%list = (ended t1 ++ ended t2)%list.
Proof. apply omap_app. Qed.

Lemma ended_logEvents l level es :
  Forall (logEvent l level) es → ended es = [].
Proof. induction 1 as [|e es (s & chunk & -> & _) _ IH]; [done|]. exact IH. Qed.

Lemma flush_ended w : ended (trace (flush w).2) = ended (trace w).
Proof.
  destruct (flush_trace w) as [-> | (_ & _ & ->)]; [done|].
  rewrite ended_app. cbn. by rewrite app_nil_r.
Qed.

Lemma perform_open_ended env op w :
  isClosed (this w) = false →
  (isClosed (this (perform env op w)) = false
   ∧ ended (trace (perform env op w)) = ended (trace w))
  ∨ (isClosed (this (perform env op w)) = true
     ∧ trace (perform env op w) = (trace w ++ closing w)%list).
Proof.
  intros Hopen.
  assert (Hlog : ∀ level message,
    isClosed (this (log env level message w).2) = false
    ∧ ended (trace (log env level message w).2) = ended (trace w)).
  { intros level message. rewrite log_isClosed. split; [done|].
    destruct (log_trace env level message w) as (es & -> & Hes).
    rewrite ended_app, (ended_logEvents _ _ _ Hes). by rewrite app_nil_r. }
  assert (Hflush : isClosed (this (flush w).2) = false
                   ∧ ended (trace (flush w).2) = ended (trace w))
    by (rewrite flush_isClosed, flush_ended; done).
  destruct op; cbn [perform]; unfold info, warn, error, debug;
    try (left; apply Hlog).
  - left. destruct (bool_decide _); [apply Hlog|done].
  - by left.
  - left. unfold flushLoop, bind, gets.
    destruct (_ && _); [exact Hflush|done].
  - right. by rewrite close_open.
Qed.

(** X14: streams are ended by [close] alone, once, and nothing follows.
    From an open instance whose trace ends no stream, whatever calls and
    timer rounds follow, the trace ends no stream while the instance is
    open; and once it is closed, the trace is one that ends no stream,
    followed by the events of the one effective [close]: the end of the
    console sink, unless it is the standard output, and the end of each file
    stream. No write comes after them. *)
Theorem streams_end_once_and_last (env : Env) (ops : list operation)
    (w : World) :
  isClosed (this w) = false →
  ended (trace w) = [] →
  let w' := applyAll env ops w in
  ∃ t, ended t = []
       ∧ trace w' = (t ++ (if isClosed (this w') then closing w else []))%list.
Proof.
  revert w. induction ops as [|op ops IH]; intros w Hopen Hnone.
  { exists (trace w). cbn. rewrite Hopen. by rewrite app_nil_r. }
  change (applyAll env (op :: ops) w)
    with (applyAll env ops (perform env op w)).
  destruct (perform_open_ended env op w Hopen) as [[Hopen' He] | [Hclosed Ht]].
  - destruct (IH (perform env op w) Hopen') as (t & Hend & Htrace);
      [congruence|].
    exists t. split; [done|]. cbn zeta in *. rewrite Htrace.
    pose proof (perform_configOf env op w) as Hc.
    unfold configOf in Hc. injection Hc as _ _ _ Hsink _ _ Hfiles.
    unfold closing. by rewrite Hsink, Hfiles.
  - assert (Hfinal : applyAll env ops (perform env op w) = perform env op w).
    { clear IH. revert Hclosed. generalize (perform env op w). intros c Hc.
      induction ops as [|op' ops IH]; [done|].
      change (applyAll env (op' :: ops) c)
        with (applyAll env ops (perform env op' c)).
      by rewrite (perform_closed env op' c Hc). }
    exists (trace w). split; [done|]. cbn zeta.
    by rewrite Hfinal, Hclosed, Ht.
Qed.

Lemma streams_end_once_and_last_witness :
  let w := build 2 (UserStream 1) false in
  let w' := applyAll sampleEnv
              [CallInfo (VString "a"); CallClose; CallFlush; CallClose] w in
  ∃ t, ended t = []
       ∧ trace w' = (t ++ (if isClosed (this w') then closing w else []))%list.
Proof.
  apply (streams_end_once_and_last sampleEnv
           [CallInfo (VString "a"); CallClose; CallFlush; CallClose]
           (build 2 (UserStream 1) false)); vm_compute; reflexivity.
Defined.

(** ** The pattern of a stack line *)


Lemma takeDigits_sound s ds rest :
  takeDigits s = (ds, rest) → s = ds ++ rest ∧ allDigits ds = true.
Proof.
  revert ds rest. induction s as [|c s IH]; intros ds rest; cbn.
  - by intros [= <- <-].
  - destruct (Js.isDigit c) eqn:Hc.
    + destruct (takeDigits s) as [ds' rest'].
      intros [= <- <-]. destruct (IH ds' rest' eq_refl) as [-> Hd].
      split; [done|]. cbn. by rewrite Hc.
    + by intros [= <- <-].
Qed.

Lemma digits1_sound s ds rest :
  digits1 s = Some (ds, rest) →
  s = ds ++ rest ∧ ds ≠ EmptyString ∧ allDigits ds = true.
Proof.
  unfold digits1. destruct (takeDigits s) as [d r] eqn:E.
  destruct d as [|c d]; [done|]. intros [= <- <-].
  destruct (takeDigits_sound _ _ _ E) as [-> Hd]. done.
Qed.

Lemma matchPosition_sound s ln :
  matchPosition s = Some ln →
  ∃ col post,
    s = ":" ++ ln ++ ":" ++ col ++ ")" ++ post
    ∧ ln ≠ EmptyString ∧ allDigits ln = true
    ∧ col ≠ EmptyString ∧ allDigits col = true.
Proof.
  unfold matchPosition. destruct s as [|c s1]; [done|].
  destruct c as [[] [] [] [] [] [] [] []]; try done.
  destruct (digits1 s1) as [[l r]|] eqn:E1; [|done].
  destruct r as [|c s2]; [done|].
  destruct c as [[] [] [] [] [] [] [] []]; try done.
  destruct (digits1 s2) as [[col r]|] eqn:E2; [|done].
  destruct r as [|c post]; [done|].
  destruct c as [[] [] [] [] [] [] [] []]; try done.
  intros [= ->].
  destruct (digits1_sound _ _ _ E1) as (-> & H1 & H2).
  destruct (digits1_sound _ _ _ E2) as (-> & H3 & H4).
  by exists col, post.
Qed.

Lemma lazyGroup_sound {R : Type} (k : string → option R) s g r :
  lazyGroup k s = Some (g, r) →
  ∃ rest, s = g ++ rest ∧ g ≠ EmptyString ∧ oneLine g = true ∧ k rest = Some r.
Proof.
  revert g r. induction s as [|c s IH]; intros g r; cbn; [done|].
  destruct (Js.isLineTerminator c) eqn:Hc; [done|].
  destruct (k s) as [r'|] eqn:Hk.
  - intros [= <- <-]. exists s. cbn. by rewrite Hc.
  - destruct (lazyGroup k s) as [[g' r']|]; [|done].
    intros [= <- <-]. destruct (IH g' r' eq_refl) as (rest & -> & _ & Hl & Hr).
    exists rest. cbn. by rewrite Hc.
Qed.

Lemma matchLocation_sound s g2 ln :
  matchLocation s = Some (g2, ln) →
  ∃ col post,
    s = " (" ++ g2 ++ ":" ++ ln ++ ":" ++ col ++ ")" ++ post
    ∧ g2 ≠ EmptyString ∧ oneLine g2 = true
    ∧ ln ≠ EmptyString ∧ allDigits ln = true
    ∧ col ≠ EmptyString ∧ allDigits col = true.
Proof.
  unfold matchLocation. destruct s as [|c s]; [done|].
  destruct c as [[] [] [] [] [] [] [] []]; try done.
  destruct s as [|c s]; [done|].
  destruct c as [[] [] [] [] [] [] [] []]; try done.
  intros H. destruct (lazyGroup_sound _ _ _ _ H) as (rest & -> & Hg & Hl & Hp).
  destruct (matchPosition_sound _ _ Hp) as (col & post & -> & Hd).
  by exists col, post.
Qed.

Lemma matchHere_sound s m :
  matchHere s = Some m →
  ∃ col post, located s EmptyString (group1 m) (group2 m) (group3 m) col post.
Proof.
  unfold matchHere. destruct s as [|c s]; [done|].
  destruct c as [[] [] [] [] [] [] [] []]; try done.
  destruct s as [|c s]; [done|].
  destruct c as [[] [] [] [] [] [] [] []]; try done.
  destruct s as [|c s]; [done|].
  destruct c as [[] [] [] [] [] [] [] []]; try done.
  destruct (lazyGroup matchLocation s) as [[g1 [g2 ln]]|] eqn:E; [|done].
  intros [= <-]. cbn [group1 group2 group3].
  destruct (lazyGroup_sound _ _ _ _ E) as (rest & -> & Hg & Hl & Hp).
  destruct (matchLocation_sound _ _ _ Hp) as (col & post & -> & Hd).
  exists col, post. by split.
Qed.

Lemma detectorRegex_sound s m :
  detectorRegex s = Some m →
  ∃ pre col post, located s pre (group1 m) (group2 m) (group3 m) col post.
Proof.
  induction s as [|c s IH].
  - cbn. done.
  - cbn [detectorRegex]. destruct (matchHere (String c s)) as [m'|] eqn:E.
    + intros [= ->]. destruct (matchHere_sound _ _ E) as (col & post & H).
      by exists EmptyString, col, post.
    + intros H. destruct (IH H) as (pre & col & post & -> & Hrest).
      exists (String c pre), col, post. by split.
Qed.

(** *** Every text of that shape is matched *)

Lemma takeDigits_complete ds c rest :
  allDigits ds = true → Js.isDigit c = false →
  takeDigits (ds ++ String c rest) = (ds, String c rest).
Proof.
  intros Hd Hc. induction ds as [|d ds IH].
  - change (takeDigits (String c rest) = (EmptyString, String c rest)).
    cbn [takeDigits]. by rewrite Hc.
  - cbn in Hd. apply andb_true_iff in Hd as [Hd Hds].
    change (String d ds ++ String c rest) with (String d (ds ++ String c rest)).
    cbn [takeDigits]. by rewrite Hd, IH.
Qed.

Lemma digits1_complete ds c rest :
  ds ≠ EmptyString → allDigits ds = true → Js.isDigit c = false →
  digits1 (ds ++ String c rest) = Some (ds, String c rest).
Proof.
  intros Hne Hd Hc. unfold digits1. rewrite takeDigits_complete by done.
  by destruct ds.
Qed.

Lemma matchPosition_complete ln col post :
  ln ≠ EmptyString → allDigits ln = true →
  col ≠ EmptyString → allDigits col = true →
  matchPosition (":" ++ ln ++ ":" ++ col ++ ")" ++ post) = Some ln.
Proof.
  intros H1 H2 H3 H4.
  change (matchPosition (String ":" (ln ++ String ":" (col ++ String ")" post)))
          = Some ln).
  cbn [matchPosition].
  rewrite (digits1_complete ln) by done.
  by rewrite (digits1_complete col) by done.
Qed.

Lemma lazyGroup_complete {R : Type} (k : string → option R) g rest :
  g ≠ EmptyString → oneLine g = true → is_Some (k rest) →
  is_Some (lazyGroup k (g ++ rest)).
Proof.
  intros Hne Hl Hk. induction g as [|c g IH]; [done|].
  cbn in Hl. apply andb_true_iff in Hl as [Hc Hl].
  apply negb_true_iff in Hc.
  change (String c g ++ rest) with (String c (g ++ rest)).
  cbn [lazyGroup]. rewrite Hc.
  destruct (k (g ++ rest)) as [r|] eqn:E; [done|].
  destruct g as [|c' g'].
  - change (k rest = None) in E. rewrite E in Hk. by destruct Hk.
  - destruct IH as [[g1 r] ->]; done.
Qed.

Lemma matchHere_complete g1 g2 ln col post :
  g1 ≠ EmptyString → oneLine g1 = true →
  g2 ≠ EmptyString → oneLine g2 = true →
  ln ≠ EmptyString → allDigits ln = true →
  col ≠ EmptyString → allDigits col = true →
  is_Some (matchHere ("at " ++ g1 ++ " (" ++ g2 ++ ":" ++ ln ++ ":" ++ col
                      ++ ")" ++ post)).
Proof.
  intros H1 H2 H3 H4 H5 H6 H7 H8.
  assert (Hloc : is_Some (matchLocation
                   (" (" ++ g2 ++ ":" ++ ln ++ ":" ++ col ++ ")" ++ post))).
  { change (is_Some (lazyGroup matchPosition
                       (g2 ++ ":" ++ ln ++ ":" ++ col ++ ")" ++ post))).
    apply lazyGroup_complete; [done..|].
    rewrite matchPosition_complete by done. by eexists. }
  pose proof (lazyGroup_complete matchLocation g1 _ H1 H2 Hloc) as [[g [a b]] E].
  change (is_Some
    (match lazyGroup matchLocation
             (g1 ++ " (" ++ g2 ++ ":" ++ ln ++ ":" ++ col ++ ")" ++ post) with
     | Some (g1, (g2, g3)) => Some {| group1 := g1; group2 := g2; group3 := g3 |}
     | None => None
     end)).
  rewrite E. by eexists.
Qed.

Lemma detectorRegex_complete s pre g1 g2 ln col post :
  located s pre g1 g2 ln col post → is_Some (detectorRegex s).
Proof.
  intros (-> & H1 & H2 & H3 & H4 & H5 & H6 & H7 & H8).
  pose proof (matchHere_complete g1 g2 ln col post H1 H2 H3 H4 H5 H6 H7 H8)
    as Hhere.
  induction pre as [|c pre IH].
  - change (EmptyString ++ ?x) with x.
    destruct Hhere as [m E].
    destruct g1 as [|c1 g1]; [done|].
    change ("at " ++ String c1 g1 ++ ?x)
      with (String "a" (String "t" (String " " (String c1 (g1 ++ x))))) in *.
    cbn [detectorRegex]. rewrite E. by eexists.
  - change (String c pre ++ ?x) with (String c (pre ++ x)).
    cbn [detectorRegex].
    destruct (matchHere (String c _)); [by eexists|exact IH].
Qed.

(** X16: what [line.match(detectorRegex)] finds. A match exists exactly
    when the line holds, somewhere, the text [at ], a non-empty group, a
    space and an opening parenthesis, a second non-empty group, and two
    non-empty runs of digits, each after a colon, before a closing
    parenthesis; and the three groups the code reads (the identifier, the
    path and the line number) are the parts of such an occurrence. The line
    number is a non-empty run of digits, so [parseInt] never yields [NaN]. *)
Theorem detectorRegex_matches_shape (s : string) :
  (∀ m, detectorRegex s = Some m →
     ∃ pre col post,
       located s pre (group1 m) (group2 m) (group3 m) col post)
  ∧ (∀ pre g1 g2 ln col post,
       located s pre g1 g2 ln col post → is_Some (detectorRegex s)).
Proof.
  split.
  - apply detectorRegex_sound.
  - apply detectorRegex_complete.
Qed.

Lemma detectorRegex_matches_shape_witness :
  ∃ pre col post,
    located "    at new Logger (/app/src/modules/classes/Logger.ts:56:25)"
      pre "new Logger" "/app/src/modules/classes/Logger.ts" "56" col post.
Proof.
  exact (proj1 (detectorRegex_matches_shape
                  "    at new Logger (/app/src/modules/classes/Logger.ts:56:25)")
           {| group1 := "new Logger";
              group2 := "/app/src/modules/classes/Logger.ts";
              group3 := "56" |} eq_refl).
Defined.

(** ** The name [getCallerClass] returns *)

Lemma includes_char_nil c : Js.includes (String c EmptyString) EmptyString = false.
Proof. done. Qed.

Lemma includes_char_cons c d s :
  Js.includes (String c EmptyString) (String d s)
  = Ascii.eqb c d || Js.includes (String c EmptyString) s.
Proof.
  cbn [Js.includes String.prefix].
  destruct (ascii_dec c d) as [->|Hne].
  - rewrite Ascii.eqb_refl. by destruct s.
  - apply Ascii.eqb_neq in Hne. by rewrite Hne.
Qed.

(** A piece of [s.split(sep)] holds no separator, and no character that
    [s] does not hold. *)
Lemma split_pieces x sep s p :
  x = sep ∨ Js.includes (String x EmptyString) s = false →
  p ∈ Js.split sep s →
  Js.includes (String x EmptyString) p = false.
Proof.
  revert p. induction s as [|c s IH]; intros p Hx Hp.
  - cbn in Hp. apply list_elem_of_singleton in Hp as ->. done.
  - assert (Hx' : x = sep ∨ Js.includes (String x EmptyString) s = false).
    { destruct Hx as [Hx|Hx]; [by left|right].
      rewrite includes_char_cons in Hx. by apply orb_false_iff in Hx as [_ Hx]. }
    cbn [Js.split] in Hp. destruct (Ascii.eqb c sep) eqn:Hc.
    + apply elem_of_cons in Hp as [->|Hp]; [done|by apply IH].
    + assert (Hxc : Ascii.eqb x c = false).
      { destruct Hx as [->|Hx].
        - by rewrite Ascii.eqb_sym.
        - rewrite includes_char_cons in Hx.
          by apply orb_false_iff in Hx as [Hx _]. }
      destruct (Js.split sep s) as [|piece pieces] eqn:E.
      * apply list_elem_of_singleton in Hp as ->.
        by rewrite includes_char_cons, Hxc.
      * apply elem_of_cons in Hp as [->|Hp].
        -- rewrite includes_char_cons, Hxc. cbn [orb].
           apply IH; [done|]. apply list_elem_of_here.
        -- apply IH; [done|]. by apply list_elem_of_further.
Qed.

Lemma hd_elem_of (l : list string) : l ≠ [] → hd EmptyString l ∈ l.
Proof. destruct l; [done|]. intros _. apply list_elem_of_here. Qed.

Lemma className_one_token ident :
  Js.includes "." (className ident) = false
  ∧ Js.includes " " (className ident) = false.
Proof.
  unfold className.
  set (front := hd EmptyString (Js.split "." ident)).
  assert (Hfront : Js.includes "." front = false).
  { apply (split_pieces "." "." ident); [by left|].
    apply hd_elem_of, split_nonempty. }
  set (separated := Js.split " " front).
  set (separated' := if (1 <? List.length separated)%nat
                     then tail separated else separated).
  assert (Hsub : ∀ p, p ∈ separated' → p ∈ separated).
  { intros p. subst separated'. destruct (_ <? _)%nat; [|done].
    destruct separated; [done|]. apply list_elem_of_further. }
  destruct separated' as [|p l] eqn:E; [done|].
  cbn [hd].
  assert (Hp : p ∈ separated) by (apply Hsub, list_elem_of_here).
  split.
  - apply (split_pieces "." " " front); [by right|done].
  - apply (split_pieces " " " " front); [by left|done].
Qed.

(** X17: the name [getCallerClass] returns is one token: whatever the
    working directory and the captured stack, it holds no dot and no
    space. *)
Theorem getCallerClass_one_token (filterDir stackText : string) :
  Js.includes "." (getCallerClass filterDir stackText) = false
  ∧ Js.includes " " (getCallerClass filterDir stackText) = false.
Proof.
  unfold getCallerClass. destruct (sort _) as [|chosen rest]; [done|].
  apply className_one_token.
Qed.

(** ** The caller resolver against the specification *)

Lemma toNumber_exact z : (z < 2 ^ 53)%Z → Js.toNumber z = z.
Proof.
  intros H. unfold Js.toNumber.
  destruct (Z.ltb_spec z (2 ^ 53)); [done | lia].
Qed.

Lemma mathInt_numberOf acc s :
  allDigits s = true →
  Js.mathInt acc s
  = (acc * 10 ^ Z.of_nat (String.length s) + numberOf s)%Z.
Proof.
  revert acc. induction s as [|c s IH]; intros acc Hd.
  - cbn. lia.
  - cbn [allDigits] in Hd. apply andb_true_iff in Hd as [Hc Hs].
    cbn [Js.mathInt numberOf]. rewrite Hc, (IH _ Hs).
    change (String.length (String c s)) with (S (String.length s)).
    assert (Hn : (48 ≤ nat_of_ascii c)%nat).
    { unfold Js.isDigit in Hc. apply andb_true_iff in Hc as [Hc _].
      by apply Nat.leb_le in Hc. }
    rewrite Nat2Z.inj_sub by done.
    rewrite (Nat2Z.inj_succ (String.length s)), Z.pow_succ_r by lia.
    change (Z.of_nat 48) with 48%Z. ring.
Qed.

Lemma parseInt_numberOf s :
  allDigits s = true → Js.parseInt s = Js.toNumber (numberOf s).
Proof.
  intros Hd. unfold Js.parseInt. by rewrite mathInt_numberOf.
Qed.

Lemma stack_digits stackText m :
  In m (stack stackText) → allDigits (group3 m) = true.
Proof.
  unfold stack. intros Hin. apply list_elem_of_In in Hin.
  apply list_elem_of_omap in Hin as (l & _ & Hm).
  destruct (detectorRegex_sound _ _ Hm)
    as (pre & col & post & _ & _ & _ & _ & _ & _ & Hd & _).
  exact Hd.
Qed.

Lemma filter_map_commute {A B : Type} (p : B → bool) (g : A → B) (l : list A) :
  List.filter p (List.map g l) = List.map g (List.filter (λ a, p (g a)) l).
Proof.
  induction l as [|a l IH]; [done|]. cbn.
  destruct (p (g a)); cbn; by rewrite IH.
Qed.

Lemma tail_map {A B : Type} (g : A → B) (l : list A) :
  tail (List.map g l) = List.map g (tail l).
Proof. by destruct l. Qed.

(** The frames the code sorts are the candidates of the specification,
    in the same order, with their line numbers as Numbers. *)
Lemma named_candidates filterDir stackText :
  named filterDir stackText
  = List.map toStackFrame (candidates filterDir stackText).
Proof.
  unfold named, local, candidates, captured, detections.
  rewrite tail_map, <- map_rev, !filter_map_commute, map_map.
  set (frames := rev (tail (stack stackText))).
  rewrite (filter_ext
             (λ m, isLocal filterDir
                     {| identifier := group1 m; path := group2 m;
                        line := Js.parseInt (group3 m) |})
             (λ m, inProject filterDir (parsed m) && negb (inDependency (parsed m))))
    by done.
  rewrite (filter_ext
             (λ m, isNamed
                     {| identifier := group1 m; path := group2 m;
                        line := Js.parseInt (group3 m) |})
             (λ m, negb (isAnonymous (parsed m)) && negb (isWrapper (parsed m)))).
  2: { intros m. unfold isNamed, isAnonymous, isWrapper, Js.startsWith. cbn.
       by rewrite negb_orb, andb_assoc. }
  apply map_ext_in. intros m Hin.
  apply filter_In in Hin as [Hin _]. apply filter_In in Hin as [Hin _].
  unfold toStackFrame, parsed. cbn. f_equal.
  apply parseInt_numberOf, (stack_digits stackText).
  subst frames. apply in_rev in Hin. destruct (stack stackText); [done|]. by right.
Qed.

Lemma className_bareIdentifier ident :
  onlySpaces (beforeFirstDot ident) = true →
  className ident = bareIdentifier ident.
Proof.
  intros Hs. unfold className, bareIdentifier.
  rewrite (split_head "." ident). fold (beforeFirstDot ident).
  rewrite (split_space_whiteSpace _ Hs).
  by destruct (splitWhiteSpace (beforeFirstDot ident)) as [|t1 [|t2 ts]].
Qed.

(** C7, amended: the candidates are the frames of the captured stack
    without its top frame, outermost first, that lie in the project and in no
    dependency and are neither anonymous nor those of a wrapper. With
    line numbers below 2^53, which Numbers hold exactly: [getCallerClass]
    returns ["Unknown"] when there is no candidate; otherwise it takes the
    candidate of the smallest line number, the outermost of them among
    equals, and returns what its own extraction makes of the symbol of that
    frame, which is, when the only white space before the first dot of the
    symbol is the space character, the part before that dot, cut into tokens
    at white space, without its first token when there are several. *)
Theorem getCallerClass_spec (filterDir stackText : string) :
  let survivors := candidates filterDir stackText in
  Forall (λ f, (lineNumber f < 2 ^ 53)%Z) survivors →
  (survivors = [] → getCallerClass filterDir stackText = "Unknown")
  ∧ (survivors ≠ [] →
     ∃ before chosen after,
       survivors = (before ++ chosen :: after)%list
       ∧ (∀ f, f ∈ before → (lineNumber chosen < lineNumber f)%Z)
       ∧ (∀ f, f ∈ after → (lineNumber chosen ≤ lineNumber f)%Z)
       ∧ getCallerClass filterDir stackText = className (symbol chosen)
       ∧ (onlySpaces (beforeFirstDot (symbol chosen)) = true →
          getCallerClass filterDir stackText = bareIdentifier (symbol chosen))).
Proof.
  intros survivors Hexact. unfold getCallerClass.
  rewrite named_candidates. fold survivors. split.
  - by intros ->.
  - intros Hne.
    destruct (sort (List.map toStackFrame survivors)) as [|top rest] eqn:E.
    { apply sort_nil in E. by destruct survivors. }
    destruct (sort_head _ top rest E) as (before' & after' & Hl & Hb & Ha).
    apply map_eq_app in Hl as (before & tl & Hs & <- & Htl).
    apply map_eq_cons in Htl as (chosen & after & -> & <- & <-).
    assert (Hline : ∀ f, f ∈ survivors → line (toStackFrame f) = lineNumber f).
    { intros f Hf. cbn. apply toNumber_exact.
      by apply (proj1 (Forall_forall _ _) Hexact), list_elem_of_In. }
    assert (Hin : ∀ f, f ∈ before ∨ f = chosen ∨ f ∈ after → f ∈ survivors).
    { intros f Hf. rewrite Hs, elem_of_app, elem_of_cons. tauto. }
    exists before, chosen, after. split; [exact Hs|].
    split; [|split; [|split]].
    + intros f Hf.
      rewrite <- (Hline chosen), <- (Hline f) by (apply Hin; tauto).
      apply Hb, list_elem_of_In, in_map. by apply list_elem_of_In.
    + intros f Hf.
      rewrite <- (Hline chosen), <- (Hline f) by (apply Hin; tauto).
      apply Ha, list_elem_of_In, in_map. by apply list_elem_of_In.
    + done.
    + intros Hsp. by apply className_bareIdentifier.
Qed.

Lemma getCallerClass_spec_witness :
  Forall (λ f, (lineNumber f < 2 ^ 53)%Z) (candidates "/app" sampleStack)
  ∧ candidates "/app" sampleStack ≠ []
  ∧ ∃ before chosen after,
      candidates "/app" sampleStack = (before ++ chosen :: after)%list
      ∧ (∀ f, f ∈ before → (lineNumber chosen < lineNumber f)%Z)
      ∧ (∀ f, f ∈ after → (lineNumber chosen ≤ lineNumber f)%Z)
      ∧ getCallerClass "/app" sampleStack = className (symbol chosen)
      ∧ (onlySpaces (beforeFirstDot (symbol chosen)) = true →
         getCallerClass "/app" sampleStack = bareIdentifier (symbol chosen)).
Proof.
  assert (Hexact : Forall (λ f, (lineNumber f < 2 ^ 53)%Z)
                     (candidates "/app" sampleStack)).
  { apply Forall_forall. intros f Hf. vm_compute in Hf.
    destruct Hf as [<-|[<-|[]]]; vm_compute; reflexivity. }
  assert (Hne : candidates "/app" sampleStack ≠ []) by (vm_compute; discriminate).
  split; [exact Hexact|]. split; [exact Hne|].
  exact (proj2 (getCallerClass_spec "/app" sampleStack Hexact) Hne).
Defined.

(** C7, as stated, fails in two ways. The code cuts the symbol at the
    space character and at no other white space: with a tab in the name of
    the calling function it returns the whole name, where cutting at white
    space gives its second token. And it compares line numbers as Numbers:
    2^53 + 1 is the Number 2^53, so of two candidates at lines 2^53 + 1 and
    2^53 it takes the outermost, which is not the one of the smallest
    line number. *)
Lemma getCallerClass_cuts_at_spaces_and_compares_numbers :
  candidates "/app" tabStack
  = [ {| symbol := "get" ++ String (Js.chr 9) "label";
         filePath := "/app/src/widget.ts"; lineNumber := 7 |} ]
  ∧ getCallerClass "/app" tabStack = "get" ++ String (Js.chr 9) "label"
  ∧ bareIdentifier ("get" ++ String (Js.chr 9) "label") = "label"
  ∧ candidates "/app" longFileStack
    = [ {| symbol := "new First"; filePath := "/app/src/generated.ts";
           lineNumber := 9007199254740993 |};
        {| symbol := "new Second"; filePath := "/app/src/generated.ts";
           lineNumber := 9007199254740992 |} ]
  ∧ getCallerClass "/app" longFileStack = "First".
Proof. repeat split; vm_compute; reflexivity. Qed.
